(** * The structural-loss pipeline of [train.py]

    A shallow embedding of the loss functions, the epoch loops and the
    training run of [train.py] ([unpad_angle_vectors],
    [inverse_trig_transform], [cal_loss], [mse_loss], [train_epoch],
    [eval_epoch], [train]) over exact real arithmetic, together with the
    part of the tensor library they rely on (shapes, devices,
    broadcasting, [view], [atan2], [mse_loss]).  What [train] prints,
    writes and saves is recorded as a list of events.

    Tensor elements are real numbers: rounding, infinities and signed zeros
    are outside the model.  The one not-a-number the code can produce from
    real inputs, the mean of an empty tensor, is kept as an explicit value.
    Tensors are contiguous and of one floating-point type; gradients are
    not modelled. *)

From Stdlib Require Import String Ascii ZArith.
From Stdlib Require Import Reals Lra Lia List Arith Bool.
From Stdlib Require Import Permutation.
Import ListNotations.

Open Scope R_scope.

(** ** Errors *)

(** The exceptions the modelled code can raise; [CudaUnavailable] stands
    for what the tensor library raises when a CUDA tensor is asked for and
    no CUDA device can be used. *)
Inductive error : Type :=
| RuntimeError
| IndexError
| TypeError
| ZeroDivisionError
| CudaUnavailable.

Inductive result (A : Type) : Type :=
| Ok (a : A)
| Raise (e : error).

Arguments Ok {A} a.
Arguments Raise {A} e.

Definition bind {A B : Type} (c : result A) (k : A -> result B) : result B :=
  match c with
  | Ok a => k a
  | Raise e => Raise e
  end.

Notation "x <- c ;; k" := (bind c (fun x => k))
  (at level 61, c at next level, right associativity).
Notation "' pat <- c ;; k" := (bind c (fun x => match x with pat => k end))
  (at level 61, pat pattern, c at next level, right associativity).

(** ** Lists *)

Section ListOps.
Context {A B C : Type}.

Definition zip_with (f : A -> B -> C) (l1 : list A) (l2 : list B) : list C :=
  map (fun xy => f (fst xy) (snd xy)) (combine l1 l2).

(** [chunks n k l]: the first [k] consecutive blocks of [n] elements. *)
Fixpoint chunks (n k : nat) (l : list A) : list (list A) :=
  match k with
  | O => []
  | S k' => firstn n l :: chunks n k' (skipn n l)
  end.
End ListOps.

Definition Rsum (l : list R) : R := fold_right Rplus 0 l.

(** ** Tensors *)

(** [torch.device], by its [type]. *)
Inductive device : Type := cpu | cuda.

Definition device_eqb (a b : device) : bool :=
  match a, b with
  | cpu, cpu | cuda, cuda => true
  | _, _ => false
  end.

(** A contiguous tensor: where it lives, its shape, and its elements in
    row-major order. *)
Record tensor (A : Type) : Type := mkTensor {
  dev : device;
  shape : list nat;
  data : list A
}.

Arguments mkTensor {A} dev shape data.
Arguments dev {A} t.
Arguments shape {A} t.
Arguments data {A} t.

Definition numel (s : list nat) : nat := fold_right Nat.mul 1%nat s.

(** A tensor holds as many elements as its shape says. *)
Definition wf {A : Type} (t : tensor A) : Prop :=
  length (data t) = numel (shape t).

(** A floating-point scalar result: a real number or not-a-number. *)
Inductive fscalar : Type :=
| Num (r : R)
| NaN.

(** *** Broadcasting *)

Definition bdim (a b : nat) : option nat :=
  if (a =? b)%nat then Some a
  else if (a =? 1)%nat then Some b
  else if (b =? 1)%nat then Some a
  else None.

Fixpoint bdims (sa sb : list nat) : option (list nat) :=
  match sa, sb with
  | [], [] => Some []
  | a :: sa', b :: sb' =>
      match bdim a b, bdims sa' sb' with
      | Some d, Some s => Some (d :: s)
      | _, _ => None
      end
  | _, _ => None
  end.

(** Shapes are aligned on their trailing dimensions: the shorter one is
    extended with leading ones. *)
Definition lpad (n : nat) (s : list nat) : list nat :=
  repeat 1%nat (n - length s) ++ s.

Definition broadcast_shapes (sa sb : list nat) : option (list nat) :=
  let n := Nat.max (length sa) (length sb) in
  bdims (lpad n sa) (lpad n sb).

(** [expand from to d]: the elements of a tensor of shape [from] seen at
    shape [to] (same rank), a dimension of size one being repeated. *)
Fixpoint expand {A : Type} (from to : list nat) (d : list A) : list A :=
  match from, to with
  | a :: from', t :: to' =>
      let rows := map (expand from' to') (chunks (numel from') a d) in
      if (a =? t)%nat then concat rows else concat (repeat (concat rows) t)
  | _, _ => d
  end.

Definition expand_to {A : Type} (s : list nat) (t : tensor A) : list A :=
  expand (lpad (length s) (shape t)) s (data t).

(** [from] can be seen at shape [to]. *)
Definition expands (from to : list nat) : Prop :=
  Forall2 (fun a t => a = t \/ a = 1%nat) from to.

Definition is_cpu_scalar {A : Type} (t : tensor A) : bool :=
  match dev t, shape t with
  | cpu, [] => true
  | _, _ => false
  end.

(** The operands of a binary operation live on one device, a
    zero-dimensional CPU tensor being accepted next to any tensor. *)
Definition binop_device {A B : Type} (a : tensor A) (b : tensor B)
  : result device :=
  if device_eqb (dev a) (dev b) then Ok (dev a)
  else if is_cpu_scalar a then Ok (dev b)
  else if is_cpu_scalar b then Ok (dev a)
  else Raise RuntimeError.

(** An element-wise binary operation, with broadcasting. *)
Definition binop {A B C : Type} (f : A -> B -> C)
  (a : tensor A) (b : tensor B) : result (tensor C) :=
  d <- binop_device a b ;;
  match broadcast_shapes (shape a) (shape b) with
  | None => Raise RuntimeError
  | Some s => Ok (mkTensor d s (zip_with f (expand_to s a) (expand_to s b)))
  end.

(** [a * b], on finite values: the product with 0 is 0. *)
Definition tmul : tensor R -> tensor R -> result (tensor R) := binop Rmult.

(** [t != 0] *)
Definition ne0 (x : R) : bool := if Req_EM_T x 0 then false else true.

Definition tne0 (t : tensor R) : tensor bool :=
  mkTensor (dev t) (shape t) (map ne0 (data t)).

Definition float_of_bool (b : bool) : R := if b then 1 else 0.

(** The mask entry of a reference value, as a number, and the numeric mask
    of a reference tensor on a device. *)
Definition mask01 (x : R) : R := float_of_bool (ne0 x).

Definition mask_of (d : device) (g : tensor R) : tensor R :=
  mkTensor d (shape g) (map mask01 (data g)).

(** Residues: with [w] values per residue, residue [r] holds the elements
    [w * r .. w * r + w - 1] of a row-major tensor. *)
Definition in_residue (w r j : nat) : Prop := (w * r <= j < w * r + w)%nat.

(** Residue [r] of the reference is the all-zero padding pattern. *)
Definition padded_at (w : nat) (gd : list R) (r : nat) : Prop :=
  forall j, in_residue w r j -> nth j gd 0 = 0.

(** Two predictions agree at every residue the reference does not pad. *)
Definition agree_off_padding (w : nat) (gd pd pd' : list R) : Prop :=
  forall r, padded_at w gd r
            \/ forall j, in_residue w r j -> nth j pd' 0 = nth j pd 0.

(** The validity mask in the specification's words, to compare [tne0]
    with: one boolean per residue, true when the residue's reference
    values are not all zero, shared by the values of the residue. *)
Definition residue_mask (w : nat) (gd : list R) : list bool :=
  concat (map (fun residue => repeat (existsb ne0 residue) w)
              (chunks w (length gd / w) gd)).

(** *** [torch.atan2] *)

(** The two-argument arctangent of [(y, x)], the angle of the point
    [(x, y)], with [atan2 0 0 = 0].  The zero of the reals has no sign:
    what a floating-point type returns on a negative zero is not
    modelled. *)
Definition atan2 (y x : R) : R :=
  if Rlt_dec 0 x then atan (y / x)
  else if Rlt_dec x 0 then
    if Rle_dec 0 y then atan (y / x) + PI else atan (y / x) - PI
  else if Rlt_dec 0 y then PI / 2
  else if Rlt_dec y 0 then - (PI / 2)
  else 0.

Definition tatan2 : tensor R -> tensor R -> result (tensor R) := binop atan2.

(** The angles of a row of consecutive (cosine, sine) pairs. *)
Fixpoint decode_pairs (l : list R) : list R :=
  match l with
  | c :: s :: rest => atan2 s c :: decode_pairs rest
  | _ => []
  end.

(** The encoding the codec inverts: each angle as its (cosine, sine)
    pair. *)
Definition trig_encode (angles : list R) : list R :=
  flat_map (fun a => [cos a; sin a]) angles.

(** *** [view] and indexing *)

(** The size [view] gives to its [-1] entry: [known] is the product of the
    other entries.  A zero product is refused, whether the tensor is empty
    (the entry could be any value) or not. *)
Definition infer_size (n known : nat) : result nat :=
  if (known =? 0)%nat then Raise RuntimeError
  else if (n mod known =? 0)%nat then Ok (n / known)%nat
  else Raise RuntimeError.

(** [t.view(t.shape[0], -1, 11, 2)] *)
Definition view_pairs {A : Type} (t : tensor A) : result (tensor A) :=
  match shape t with
  | [] => Raise IndexError
  | s0 :: _ =>
      n <- infer_size (numel (shape t)) (s0 * 11 * 2) ;;
      Ok (mkTensor (dev t) [s0; n; 11; 2]%nat (data t))
  end.

(** [t[:, :, :, i]] *)
Definition index_last {A : Type} (i : nat) (t : tensor A) : result (tensor A) :=
  match shape t with
  | [a; b; c; d] =>
      if (i <? d)%nat then
        Ok (mkTensor (dev t) [a; b; c]
              (concat (map (fun pair => firstn 1 (skipn i pair))
                           (chunks d (a * b * c) (data t)))))
      else Raise IndexError
  | _ => Raise IndexError
  end.

(** Iterating over a tensor: its slices along the first dimension. *)
Definition iter {A : Type} (t : tensor A) : result (list (tensor A)) :=
  match shape t with
  | [] => Raise TypeError
  | s0 :: rest =>
      Ok (map (mkTensor (dev t) rest) (chunks (numel rest) s0 (data t)))
  end.

(** [torch.mean] of all the elements. *)
Definition tmean (l : list R) : fscalar :=
  match l with
  | [] => NaN
  | _ => Num (Rsum l / INR (length l))
  end.

(** [F.mse_loss(input, target)], with the default mean reduction. *)
Definition F_mse_loss (input target : tensor R) : result fscalar :=
  d <- binop (fun x y => (x - y) * (x - y)) input target ;;
  Ok (tmean (data d)).

(** [torch.mean(torch.stack(losses))] for a list of scalars; [stack]
    refuses an empty list. *)
Definition mean_stack (losses : list R) : result R :=
  match losses with
  | [] => Raise RuntimeError
  | _ => Ok (Rsum losses / INR (length losses))
  end.

(** Python's [x / y] on floats. *)
Definition py_div (x y : R) : result R :=
  if Req_EM_T y 0 then Raise ZeroDivisionError else Ok (x / y).

(** [k * t], a tensor times a number. *)
Definition tscale (k : R) (t : tensor R) : tensor R :=
  mkTensor (dev t) (shape t) (map (Rmult k) (data t)).

(** Every (cosine, sine) pair of a row lies on the unit circle. *)
Fixpoint unit_pairs (l : list R) : Prop :=
  match l with
  | [] => True
  | c :: s :: rest => c * c + s * s = 1 /\ unit_pairs rest
  | _ => False
  end.

(** ** Concrete tensors

    The tensors, and the stand-ins for the external functions, on which
    the statements of the last part are run. *)

(** A tensor of 22 values and one dimension. *)
Definition flat22 : tensor R := mkTensor cpu [22%nat] (repeat 0 22).

(** One example of one residue: eleven angles and their encoding. *)
Definition angles11 : list R :=
  [0; PI; PI / 2; - (PI / 2); PI / 4; 0; 0; 0; 0; 0; 0].

Definition encoded11 : tensor R :=
  mkTensor cpu [1; 1; 22]%nat (trig_encode angles11).

(** One residue whose eleven angles are all zero, encoded as the pairs
    (1, 0); a prediction of the same shape. *)
Definition gold_zero_angles : tensor R :=
  mkTensor cpu [1; 1; 22]%nat (concat (repeat [1; 0] 11)).

Definition pred_fives : tensor R :=
  mkTensor cpu [1; 1; 22]%nat (repeat 5 22).

(** A reference of two residues, the second one padding, and two
    predictions that differ on the padded residue only. *)
Definition gold_padded : tensor R :=
  mkTensor cpu [1; 2; 22]%nat (concat (repeat [1; 0] 11) ++ repeat 0 22).

Definition pred_a : tensor R :=
  mkTensor cpu [1; 2; 22]%nat (repeat 1 22 ++ repeat 5 22).

Definition pred_b : tensor R :=
  mkTensor cpu [1; 2; 22]%nat (repeat 1 22 ++ repeat 7 22).

(** Stand-ins for the two external functions, to run [cal_loss] on concrete
    batches: the coordinates are the angles themselves and the score is a
    scaled sum. *)
Definition sample_angles2coords (t : tensor R) (_ : device) : list R := data t.

Definition sample_drmsd (p g : list R) : R := (Rsum p + Rsum g) / (10 * PI).

(** An all-zero prediction and a reference whose first pair is (2, 0). *)
Definition pred_zero : tensor R := mkTensor cpu [1; 1; 22]%nat (repeat 0 22).

Definition gold_two : tensor R :=
  mkTensor cpu [1; 1; 22]%nat (2 :: repeat 0 21).

(** A batch of four examples of one residue: example [i] has [i] angles
    equal to pi/2, encoded as the pairs (0, 1), and zeros elsewhere. *)
Definition example_row (i : nat) : list R :=
  concat (repeat [0; 1] i) ++ repeat 0 (22 - 2 * i).

Definition batch4 : tensor R :=
  mkTensor cpu [4; 1; 22]%nat
    (example_row 1 ++ example_row 2 ++ example_row 3 ++ example_row 4).





(** Stand-ins to run the epoch loops and [train]: a score that is zero on
    equal structures and at most one, a model that counts its
    optimisation steps and predicts the target it is given, and a batch
    of one example. *)
Definition sample_distance (p g : list R) : R :=
  Rmin 1 (Rabs (Rsum p - Rsum g)).

Definition sample_model_call (_ : nat)
  (src_seq src_pos tgt_seq tgt_pos : tensor R) : result (tensor R) :=
  Ok tgt_seq.

Definition sample_optimize (model optimizer : nat) (_ _ : tensor R)
  : nat * nat :=
  (S model, S optimizer).

Definition sample_batch : tensor R * tensor R * tensor R * tensor R :=
  (gold_zero_angles, gold_zero_angles, gold_zero_angles, gold_zero_angles).

Definition sample_batch4 : tensor R * tensor R * tensor R * tensor R :=
  (batch4, batch4, batch4, batch4).

Definition sample_format_vloss (_ : R) : string := "0.000".

(** A loader that yields the same single batch at every epoch. *)
Definition sample_loader (_ : nat)
  : list (tensor R * tensor R * tensor R * tensor R) :=
  [sample_batch].

(** ** [train.py] *)

Section Train.

(** Whether a CUDA device is present. *)
Variable cuda_is_available : bool.

(** [transformer.Structure] is not part of the sources at hand:
    [angles2coords] and [drmsd] are taken as given, total functions. *)
Variable coords : Type.
Variable angles2coords : tensor R -> device -> coords.
Variable drmsd : coords -> coords -> R.

(** [t.to(device)] and [t.cuda()] *)
Definition to {A : Type} (d : device) (t : tensor A) : result (tensor A) :=
  match d with
  | cpu => Ok (mkTensor cpu (shape t) (data t))
  | cuda =>
      if cuda_is_available then Ok (mkTensor cuda (shape t) (data t))
      else Raise CudaUnavailable
  end.

(** [mask.type(torch.FloatTensor)] and [mask.type(torch.cuda.FloatTensor)] *)
Definition type_float (d : device) (m : tensor bool) : result (tensor R) :=
  m' <- to d m ;;
  Ok (mkTensor (dev m') (shape m') (map float_of_bool (data m'))).

Definition unpad_angle_vectors (pred gold : tensor R) (device : device)
  : result (tensor R * tensor R) :=
  let not_padded_mask := tne0 gold in
  match device with
  | cuda =>
      p <- to cuda pred ;;
      m <- type_float cuda not_padded_mask ;;
      pred_unpadded <- tmul p m ;;
      g <- to cuda gold ;;
      m <- type_float cuda not_padded_mask ;;
      gold_unpadded <- tmul g m ;;
      Ok (pred_unpadded, gold_unpadded)
  | cpu =>
      m <- type_float cpu not_padded_mask ;;
      pred_unpadded <- tmul pred m ;;
      m <- type_float cpu not_padded_mask ;;
      gold_unpadded <- tmul gold m ;;
      Ok (pred_unpadded, gold_unpadded)
  end.

Definition inverse_trig_transform (t : tensor R) : result (tensor R) :=
  t <- view_pairs t ;;
  t_cos <- index_last 0 t ;;
  t_sin <- index_last 1 t ;;
  tatan2 t_sin t_cos.


Definition cal_loss (pred gold : tensor R) (device : device) : result R :=
  let device := cpu in
  pred <- to device pred ;;
  gold <- to device gold ;;
  pred <- inverse_trig_transform pred ;;
  gold <- inverse_trig_transform gold ;;
  '(pred, gold) <- unpad_angle_vectors pred gold device ;;
  pred_items <- iter pred ;;
  gold_items <- iter gold ;;
  let losses :=
    map (fun item : tensor R * tensor R =>
           let (pred_item, gold_item) := item in
           let true_coords := angles2coords gold_item device in
           let pred_coords := angles2coords pred_item device in
           drmsd pred_coords true_coords)
        (combine pred_items gold_items) in
  mean_stack losses.

Definition mse_loss (pred gold : tensor R) : result fscalar :=
  let device := cpu in
  pred <- to device pred ;;
  gold <- to device gold ;;
  '(pred_unpadded, gold_unpadded) <- unpad_angle_vectors pred gold device ;;
  F_mse_loss pred_unpadded gold_unpadded.

(** The loss of the specification's alternate path, to compare
    [mse_loss] with: decode both tensors, mask, then the mean squared
    error. *)
Definition mse_loss_decoded (pred gold : tensor R) : result fscalar :=
  let device := cpu in
  pred <- to device pred ;;
  gold <- to device gold ;;
  pred <- inverse_trig_transform pred ;;
  gold <- inverse_trig_transform gold ;;
  '(pred_unpadded, gold_unpadded) <- unpad_angle_vectors pred gold device ;;
  F_mse_loss pred_unpadded gold_unpadded.

(** What [cal_loss] computes on a batch of [B] examples of [L] residues,
    from the elements of the two encoded tensors: the decoded angles
    times the mask of the decoded reference, and one loss per example. *)
Definition masked_angles (xd gd : list R) : list R :=
  zip_with Rmult (decode_pairs xd) (map mask01 (decode_pairs gd)).

Definition example_losses (B L : nat) (pd gd : list R) : list R :=
  map (fun item : tensor R * tensor R =>
         let (pred_item, gold_item) := item in
         let true_coords := angles2coords gold_item cpu in
         let pred_coords := angles2coords pred_item cpu in
         drmsd pred_coords true_coords)
      (combine
         (map (mkTensor cpu [L; 11]%nat)
            (chunks (L * 11) B (masked_angles pd gd)))
         (map (mkTensor cpu [L; 11]%nat)
            (chunks (L * 11) B (masked_angles gd gd)))).

(** *** The epoch loops *)

(** The model and the scheduled optimizer are external: a model is a
    state with its [train()] and [eval()] modes and its forward call; one
    optimisation step ([zero_grad], [loss.backward()],
    [step_and_update_lr]) gives the next model and optimizer states. *)
Variable model_t : Type.
Variable optimizer_t : Type.
Variable model_train : model_t -> model_t.
Variable model_eval : model_t -> model_t.
Variable model_call :
  model_t -> tensor R -> tensor R -> tensor R -> tensor R -> result (tensor R).
Variable optimize :
  model_t -> optimizer_t -> tensor R -> tensor R -> model_t * optimizer_t.

(** (src_seq, src_pos, tgt_seq, tgt_pos) *)
Definition batch_t : Type := (tensor R * tensor R * tensor R * tensor R)%type.

(** [t[:]] *)
Definition slice_all {A : Type} (t : tensor A) : result (tensor A) :=
  match shape t with
  | [] => Raise IndexError
  | _ => Ok t
  end.

(** [l[-n:]] *)
Definition lastn {A : Type} (n : nat) (l : list A) : list A :=
  skipn (length l - n) l.

(** The variables of [train_epoch]; [printed] collects the averages the
    loop prints (the progress bar is not modelled). *)
Record train_state : Type := mkTrainState {
  tr_model : model_t;
  tr_optimizer : optimizer_t;
  tr_total_loss : R;
  tr_n_batches : R;
  tr_training_losses : list R;
  tr_printed : list R
}.

Definition train_batch (device : device) (st : train_state)
  (batch_num : nat) (batch : batch_t) : result train_state :=
  let '(b0, b1, b2, b3) := batch in
  src_seq <- to device b0 ;;
  src_pos <- to device b1 ;;
  tgt_seq <- to device b2 ;;
  tgt_pos <- to device b3 ;;
  gold <- slice_all tgt_seq ;;
  pred <- model_call (tr_model st) src_seq src_pos tgt_seq tgt_pos ;;
  loss <- cal_loss pred gold device ;;
  let training_losses := tr_training_losses st ++ [loss] in
  let (model', optimizer') :=
    optimize (tr_model st) (tr_optimizer st) pred gold in
  let total_loss := tr_total_loss st + loss in
  let n_batches := tr_n_batches st + 1 in
  let printed :=
    if ((batch_num mod 5 =? 0) && (5 <? length training_losses))%nat
    then tr_printed st
           ++ [Rsum (lastn 32 training_losses)
               / INR (length (lastn 32 training_losses))]
    else tr_printed st in
  Ok (mkTrainState model' optimizer' total_loss n_batches
        training_losses printed).

(** [for batch_num, batch in enumerate(pbar)] *)
Fixpoint train_loop (device : device) (st : train_state)
  (batch_num : nat) (training_data : list batch_t) : result train_state :=
  match training_data with
  | [] => Ok st
  | batch :: rest =>
      st' <- train_batch device st batch_num batch ;;
      train_loop device st' (S batch_num) rest
  end.

Definition train_epoch (model : model_t) (training_data : list batch_t)
  (optimizer : optimizer_t) (device : device) : result (R * train_state) :=
  let model := model_train model in
  let total_loss := 0 in
  let n_batches := 0 in
  let training_losses := [] in
  st <- train_loop device
          (mkTrainState model optimizer total_loss n_batches
             training_losses [])
          0 training_data ;;
  r <- py_div (tr_total_loss st) (tr_n_batches st) ;;
  Ok (r, st).

(** The variables of [eval_epoch]. *)
Record eval_state : Type := mkEvalState {
  ev_total_loss : R;
  ev_n_batches : R
}.

Definition eval_batch (model : model_t) (device : device) (st : eval_state)
  (batch : batch_t) : result eval_state :=
  let '(b0, b1, b2, b3) := batch in
  src_seq <- to device b0 ;;
  src_pos <- to device b1 ;;
  tgt_seq <- to device b2 ;;
  tgt_pos <- to device b3 ;;
  gold <- slice_all tgt_seq ;;
  pred <- model_call model src_seq src_pos tgt_seq tgt_pos ;;
  loss <- cal_loss pred gold device ;;
  Ok (mkEvalState (ev_total_loss st + loss) (ev_n_batches st + 1)).

(** [for batch in validation_data] *)
Fixpoint eval_loop (model : model_t) (device : device) (st : eval_state)
  (validation_data : list batch_t) : result eval_state :=
  match validation_data with
  | [] => Ok st
  | batch :: rest =>
      st' <- eval_batch model device st batch ;;
      eval_loop model device st' rest
  end.

Definition eval_epoch (model : model_t) (validation_data : list batch_t)
  (device : device) : result (R * eval_state) :=
  let model := model_eval model in
  let total_loss := 0 in
  let n_batches := 0 in
  st <- eval_loop model device (mkEvalState total_loss n_batches)
          validation_data ;;
  r <- py_div (ev_total_loss st) (ev_n_batches st) ;;
  Ok (r, st).

(** The loss of one batch under a given model: what the body of the loop
    of [eval_epoch] computes before its note keeping. *)
Definition batch_loss (model : model_t) (device : device) (batch : batch_t)
  : result R :=
  let '(b0, b1, b2, b3) := batch in
  src_seq <- to device b0 ;;
  src_pos <- to device b1 ;;
  tgt_seq <- to device b2 ;;
  tgt_pos <- to device b3 ;;
  gold <- slice_all tgt_seq ;;
  pred <- model_call model src_seq src_pos tgt_seq tgt_pos ;;
  cal_loss pred gold device.

(** *** [train] *)

(** The state dictionary of a model and the rendering of a loss in a
    checkpoint name (['{vloss:3.3f}']) are external.  Writing to a file
    and to the console always succeeds; what is written is recorded as a
    list of events, console lines by their kind and values. *)
Variable state_dict_t : Type.
Variable state_dict : model_t -> state_dict_t.
Variable format_vloss : R -> string.

(** The settings [train] reads. *)
Record options : Type := mkOptions {
  opt_log : option string;
  opt_epoch : Z;
  opt_step_when : option Z;
  opt_save_model : option string;
  opt_save_mode : string
}.

(** Truth values of an optional string and of an optional integer:
    [None], the empty string and zero are false. *)
Definition str_truthy (s : option string) : bool :=
  match s with
  | Some s => negb (String.eqb s EmptyString)
  | None => false
  end.

Definition int_truthy (z : option Z) : bool :=
  match z with
  | Some z => negb (Z.eqb z 0)
  | None => false
  end.

Definition Rltb (x y : R) : bool := if Rlt_dec x y then true else false.

Definition Rleb (x y : R) : bool := if Rle_dec x y then true else false.

(** [min(l)] on numbers; there is none for an empty list. *)
Definition py_min (l : list R) : option R :=
  match l with
  | [] => None
  | x :: xs => Some (fold_left Rmin xs x)
  end.

Definition newline : string := String (ascii_of_nat 10) EmptyString.

Record checkpoint_t : Type := mkCheckpoint {
  ck_model : state_dict_t;
  ck_settings : options;
  ck_epoch : Z
}.

Inductive event : Type :=
| Print_log_files (log_train_file log_valid_file : string)
| Write_file (file text : string)
| Print_epoch (epoch_i : Z)
| Print_training_loss (loss : R)
| Print_validation_loss (loss : R)
| Print_stopping_early
| Torch_save (checkpoint : checkpoint_t) (model_name : string)
| Print_checkpoint_updated
| Append_file (file : string) (epoch : Z) (loss : R).

(** What [train] can raise: an exception of an epoch, or the one of [min]
    on an empty list. *)
Inductive train_exception : Type :=
| Epoch_error (e : error)
| ValueError.

(** The variables of [train]. *)
Record train_vars : Type := mkTrainVars {
  tv_model : model_t;
  tv_optimizer : optimizer_t;
  tv_valid_losses : list R;
  tv_epoch_last_improved : Z;
  tv_best_valid_loss_so_far : R;
  tv_events : list event
}.

(** How an iteration of the loop over the epochs ends: at its end,
    through [break], or with an exception, what was written until then
    staying written. *)
Inductive flow : Type :=
| Next (v : train_vars)
| Break (v : train_vars)
| Raised (events : list event) (e : train_exception).

(** [if opt.save_model: ...]: the events of the checkpoint block. *)
Definition save_checkpoint (opt : options) (checkpoint : checkpoint_t)
  (valid_loss : R) (valid_losses : list R) : option (list event) :=
  match opt_save_model opt with
  | Some save_model =>
      if negb (String.eqb save_model EmptyString) then
        if String.eqb (opt_save_mode opt) "all" then
          let model_name :=
            String.append save_model
              (String.append "_loss_"
                 (String.append (format_vloss valid_loss) ".chkpt")) in
          Some [Torch_save checkpoint model_name]
        else if String.eqb (opt_save_mode opt) "best" then
          let model_name := String.append save_model ".chkpt" in
          match py_min valid_losses with
          | None => None
          | Some m =>
              if Rleb valid_loss m
              then Some [Torch_save checkpoint model_name;
                         Print_checkpoint_updated]
              else Some []
          end
        else Some []
      else Some []
  | None => Some []
  end.

(** [if log_train_file and log_valid_file: ...]: one line appended to
    each log file. *)
Definition log_epoch (log_train_file log_valid_file : option string)
  (epoch_i : Z) (train_loss valid_loss : R) : list event :=
  match log_train_file, log_valid_file with
  | Some ltf, Some lvf =>
      if (negb (String.eqb ltf EmptyString)
          && negb (String.eqb lvf EmptyString))%bool
      then [Append_file ltf epoch_i train_loss;
            Append_file lvf epoch_i valid_loss]
      else []
  | _, _ => []
  end.

(** The body of [for epoch_i in range(opt.epoch)].  The data loaders are
    iterated once per epoch: [training_data n] and [validation_data n]
    are the batches they yield the [n]-th time. *)
Definition train_epoch_i (training_data validation_data : nat -> list batch_t)
  (device : device) (opt : options)
  (log_train_file log_valid_file : option string)
  (v : train_vars) (epoch_n : nat) : flow :=
  let epoch_i := Z.of_nat epoch_n in
  let events := tv_events v ++ [Print_epoch epoch_i] in
  match train_epoch (tv_model v) (training_data epoch_n)
          (tv_optimizer v) device with
  | Raise e => Raised events (Epoch_error e)
  | Ok (train_loss, st) =>
      let model := tr_model st in
      let optimizer := tr_optimizer st in
      let events := events ++ [Print_training_loss train_loss] in
      match eval_epoch model (validation_data epoch_n) device with
      | Raise e => Raised events (Epoch_error e)
      | Ok (valid_loss, _) =>
          let model := model_eval model in
          let events := events ++ [Print_validation_loss valid_loss] in
          let valid_losses := tv_valid_losses v ++ [valid_loss] in
          let finish best_valid_loss_so_far epoch_last_improved :=
            let checkpoint := mkCheckpoint (state_dict model) opt epoch_i in
            match save_checkpoint opt checkpoint valid_loss valid_losses with
            | None => Raised events ValueError
            | Some saved =>
                Next (mkTrainVars model optimizer valid_losses
                        epoch_last_improved best_valid_loss_so_far
                        (events ++ saved
                         ++ log_epoch log_train_file log_valid_file
                              epoch_i train_loss valid_loss))
            end in
          if (int_truthy (opt_step_when opt)
              && Rltb valid_loss (tv_best_valid_loss_so_far v))%bool
          then finish valid_loss epoch_i
          else if (int_truthy (opt_step_when opt)
                   && match opt_step_when opt with
                      | Some step_when =>
                          (epoch_i - tv_epoch_last_improved v >? step_when)%Z
                      | None => false
                      end)%bool
          then Break (mkTrainVars model optimizer valid_losses
                        (tv_epoch_last_improved v)
                        (tv_best_valid_loss_so_far v)
                        (events ++ [Print_stopping_early]))
          else finish (tv_best_valid_loss_so_far v)
                 (tv_epoch_last_improved v)
      end
  end.

Fixpoint train_epochs (training_data validation_data : nat -> list batch_t)
  (device : device) (opt : options)
  (log_train_file log_valid_file : option string)
  (epochs : list nat) (v : train_vars) : flow :=
  match epochs with
  | [] => Next v
  | epoch_n :: rest =>
      match train_epoch_i training_data validation_data device opt
              log_train_file log_valid_file v epoch_n with
      | Next v' =>
          train_epochs training_data validation_data device opt
            log_train_file log_valid_file rest v'
      | stop => stop
      end
  end.

Definition train (model : model_t)
  (training_data validation_data : nat -> list batch_t)
  (optimizer : optimizer_t) (device : device) (opt : options) : flow :=
  let '(log_train_file, log_valid_file, events) :=
    match opt_log opt with
    | Some log =>
        if negb (String.eqb log EmptyString) then
          let log_train_file := String.append log ".train.log" in
          let log_valid_file := String.append log ".valid.log" in
          (Some log_train_file, Some log_valid_file,
           [Print_log_files log_train_file log_valid_file;
            Write_file log_train_file (String.append "epoch,loss" newline);
            Write_file log_valid_file (String.append "epoch,loss" newline)])
        else (None, None, [])
    | None => (None, None, [])
    end in
  let valid_losses := [] in
  let epoch_last_improved := (-1)%Z in
  let best_valid_loss_so_far := 10000 in
  train_epochs training_data validation_data device opt
    log_train_file log_valid_file
    (seq 0 (Z.to_nat (opt_epoch opt)))
    (mkTrainVars model optimizer valid_losses epoch_last_improved
       best_valid_loss_so_far events).

(** The epochs of the checkpoints saved by a run, in order, and the run's
    events that save a checkpoint or append to a log file. *)
Definition saved_epochs (events : list event) : list Z :=
  flat_map (fun ev => match ev with
                      | Torch_save checkpoint _ => [ck_epoch checkpoint]
                      | _ => []
                      end) events.

Definition writes_results (ev : event) : bool :=
  match ev with
  | Torch_save _ _ | Append_file _ _ _ => true
  | _ => false
  end.

(** The best validation loss as [train] records it: no epoch has a loss
    below [best_valid_loss_so_far], which is the loss of the epoch
    [epoch_last_improved], or the initial 10000 when that is still -1. *)
Definition best_recorded (v : train_vars) : Prop :=
  (forall j, (j < length (tv_valid_losses v))%nat ->
     tv_best_valid_loss_so_far v <= nth j (tv_valid_losses v) 0)
  /\ ((tv_epoch_last_improved v = (-1)%Z
       /\ tv_best_valid_loss_so_far v = 10000)
      \/ ((0 <= tv_epoch_last_improved v)%Z
          /\ nth (Z.to_nat (tv_epoch_last_improved v)) (tv_valid_losses v) 0
             = tv_best_valid_loss_so_far v)).

(** Epoch [e] has the least validation loss of the first [n] epochs. *)
Definition attains_minimum (losses : list R) (n e : nat) : Prop :=
  (e < n)%nat /\ forall j, (j < n)%nat -> nth e losses 0 <= nth j losses 0.

(** The checkpoint file [file] after [completed] epochs ran to their end:
    every checkpoint was saved to it, and the last one saved, if any
    epoch ran to its end, is that of an epoch of least validation
    loss. *)
Definition best_checkpoint_kept (file : string) (v : train_vars)
  (completed : nat) : Prop :=
  (forall checkpoint model_name,
      In (Torch_save checkpoint model_name) (tv_events v) ->
      model_name = file)
  /\ ((completed = 0%nat /\ saved_epochs (tv_events v) = [])
      \/ exists e,
           last (saved_epochs (tv_events v)) (-1)%Z = Z.of_nat e
           /\ attains_minimum (tv_valid_losses v) completed e).

(** The log lines a run appended: file and epoch, in order. *)
Definition appended_lines (events : list event) : list (string * Z) :=
  flat_map (fun ev => match ev with
                      | Append_file file epoch _ => [(file, epoch)]
                      | _ => []
                      end) events.

(** The log lines of [n] epochs that ran to their end: for each epoch,
    one line in the training log, then one in the validation log. *)
Definition epoch_lines (log_train_file log_valid_file : string) (n : nat)
  : list (string * Z) :=
  flat_map (fun i => [(log_train_file, Z.of_nat i);
                      (log_valid_file, Z.of_nat i)]) (seq 0 n).

(** What [train] writes first when it is given a log name. *)
Definition log_headers (log_train_file log_valid_file : string)
  : list event :=
  [Print_log_files log_train_file log_valid_file;
   Write_file log_train_file (String.append "epoch,loss" newline);
   Write_file log_valid_file (String.append "epoch,loss" newline)].

(** The log of a run after [completed] epochs ran to their end. *)
Definition log_kept (log_train_file log_valid_file : string)
  (v : train_vars) (completed : nat) : Prop :=
  (exists rest,
      tv_events v = log_headers log_train_file log_valid_file ++ rest
      /\ forall file text, ~ In (Write_file file text) rest)
  /\ appended_lines (tv_events v)
     = epoch_lines log_train_file log_valid_file completed.

(** The checkpoints a run saved: epoch and file name, in order. *)
Definition saved_files (events : list event) : list (Z * string) :=
  flat_map (fun ev => match ev with
                      | Torch_save checkpoint model_name =>
                          [(ck_epoch checkpoint, model_name)]
                      | _ => []
                      end) events.

(** The checkpoints of [completed] epochs that ran to their end under
    the save mode 'all': one per epoch, named after its validation
    loss. *)
Definition every_checkpoint_kept (save_model : string) (v : train_vars)
  (completed : nat) : Prop :=
  saved_files (tv_events v)
  = map (fun i =>
           (Z.of_nat i,
            String.append save_model
              (String.append "_loss_"
                 (String.append (format_vloss (nth i (tv_valid_losses v) 0))
                    ".chkpt"))))
        (seq 0 completed).

(** The events that open, write or save a file. *)
Definition writes_file (ev : event) : bool :=
  match ev with
  | Write_file _ _ | Torch_save _ _ | Append_file _ _ _ => true
  | _ => false
  end.

(** Settings of three runs: one that logs, keeps the best checkpoint and
    stops when the validation loss has not improved for more than one
    epoch; one that saves a checkpoint at every epoch; one that is given
    no file name at all. *)
Definition sample_options : options :=
  mkOptions (Some "run"%string) 5 (Some 1%Z) (Some "model"%string) "best".

Definition sample_options_all : options :=
  mkOptions None 2 None (Some "model"%string) "all".

Definition sample_options_quiet : options :=
  mkOptions None 2 (Some 0%Z) (Some EmptyString) "best".

(** ** Lists, blocks and broadcasting *)

Lemma zip_with_length {A B C : Type} (f : A -> B -> C) (l1 : list A)
  (l2 : list B) :
  length (zip_with f l1 l2) = Nat.min (length l1) (length l2).
Proof. unfold zip_with. rewrite length_map. apply length_combine. Qed.

Lemma zip_with_cons {A B C : Type} (f : A -> B -> C) (x : A) (y : B)
  (l1 : list A) (l2 : list B) :
  zip_with f (x :: l1) (y :: l2) = f x y :: zip_with f l1 l2.
Proof. reflexivity. Qed.

Lemma zip_with_map_r {A B C D : Type} (f : A -> B -> C) (h : D -> B)
  (l1 : list A) (l2 : list D) :
  zip_with f l1 (map h l2) = zip_with (fun x y => f x (h y)) l1 l2.
Proof.
  revert l2. induction l1 as [| x l1 IH]; intros [| y l2]; try reflexivity.
  simpl map. rewrite !zip_with_cons, IH. reflexivity.
Qed.

Lemma zip_with_diag {A C : Type} (f : A -> A -> C) (l : list A) :
  zip_with f l l = map (fun x => f x x) l.
Proof.
  induction l as [| x l IH]; [reflexivity |].
  rewrite zip_with_cons, IH. reflexivity.
Qed.

Lemma chunks_length {A : Type} (n k : nat) (l : list A) :
  length (chunks n k l) = k.
Proof.
  revert l. induction k as [| k IH]; intros l; simpl; [| rewrite IH]; reflexivity.
Qed.

Lemma chunks_concat {A : Type} (n k : nat) (l : list A) :
  length l = (k * n)%nat -> concat (chunks n k l) = l.
Proof.
  revert l. induction k as [| k IH]; intros l Hl; simpl in *.
  - destruct l; [reflexivity | discriminate].
  - rewrite IH.
    + apply firstn_skipn.
    + rewrite length_skipn. lia.
Qed.

Lemma chunks_Forall_length {A : Type} (n k : nat) (l : list A) :
  length l = (k * n)%nat -> Forall (fun c => length c = n) (chunks n k l).
Proof.
  revert l. induction k as [| k IH]; intros l Hl; simpl in *; constructor.
  - rewrite length_firstn. lia.
  - apply IH. rewrite length_skipn. lia.
Qed.

Lemma chunks_map {A B : Type} (f : A -> B) (n k : nat) (l : list A) :
  chunks n k (map f l) = map (map f) (chunks n k l).
Proof.
  revert l. induction k as [| k IH]; intros l; simpl; [reflexivity |].
  rewrite firstn_map, skipn_map, IH. reflexivity.
Qed.

Lemma concat_length_uniform {A : Type} (n : nat) (ls : list (list A)) :
  Forall (fun c => length c = n) ls ->
  length (concat ls) = (length ls * n)%nat.
Proof.
  induction 1 as [| c ls Hc _ IH]; simpl; [reflexivity |].
  rewrite length_app, IH, Hc. reflexivity.
Qed.

Lemma concat_repeat_length {A : Type} (c : list A) (t : nat) :
  length (concat (repeat c t)) = (t * length c)%nat.
Proof.
  induction t as [| t IH]; simpl; [reflexivity |].
  rewrite length_app, IH. reflexivity.
Qed.

Lemma concat_map_repeat {A B : Type} (f : A -> B) (c : list A) (t : nat) :
  concat (repeat (map f c) t) = map f (concat (repeat c t)).
Proof.
  induction t as [| t IH]; simpl; [reflexivity |].
  rewrite map_app, IH. reflexivity.
Qed.

Lemma expand_same {A : Type} (s : list nat) (d : list A) :
  length d = numel s -> expand s s d = d.
Proof.
  revert d. induction s as [| a s IH]; intros d Hd; simpl; [reflexivity |].
  rewrite Nat.eqb_refl.
  assert (Hc : Forall (fun c => length c = numel s) (chunks (numel s) a d))
    by (apply chunks_Forall_length; exact Hd).
  rewrite (map_ext_Forall _ (fun c => c)).
  - rewrite map_id. apply chunks_concat. exact Hd.
  - eapply Forall_impl; [| exact Hc]. intros c Hlen. apply IH. exact Hlen.
Qed.

Lemma expand_length {A : Type} (from to : list nat) (d : list A) :
  expands from to -> length d = numel from ->
  length (expand from to d) = numel to.
Proof.
  intros He. revert d.
  induction He as [| a t from to Hat He IH]; intros d Hd; simpl in *;
    [exact Hd |].
  assert (Hrows :
    Forall (fun c => length c = numel to)
      (map (expand from to) (chunks (numel from) a d))).
  { apply Forall_map.
    eapply Forall_impl; [| apply chunks_Forall_length; exact Hd].
    intros c Hc. apply IH. exact Hc. }
  pose proof (concat_length_uniform _ _ Hrows) as Hlen.
  rewrite length_map, chunks_length in Hlen.
  destruct (Nat.eqb_spec a t) as [Heq | Hne].
  - subst t. exact Hlen.
  - destruct Hat as [Heq | H1]; [contradiction |]. subst a.
    rewrite concat_repeat_length, Hlen. lia.
Qed.

Lemma expand_map {A B : Type} (f : A -> B) (from to : list nat)
  (d : list A) :
  expand from to (map f d) = map f (expand from to d).
Proof.
  revert to d. induction from as [| a from IH]; intros [| t to] d; simpl;
    try reflexivity.
  rewrite chunks_map, map_map.
  rewrite (map_ext _ (fun c => map f (expand from to c)))
    by (intros c; apply IH).
  rewrite <- (map_map (expand from to) (map f)), <- concat_map.
  destruct (a =? t)%nat; [reflexivity |].
  rewrite concat_map_repeat. reflexivity.
Qed.

Lemma lpad_length (n : nat) (s : list nat) :
  (length s <= n)%nat -> length (lpad n s) = n.
Proof. intros H. unfold lpad. rewrite length_app, repeat_length. lia. Qed.

Lemma lpad_self (s : list nat) : lpad (length s) s = s.
Proof. unfold lpad. rewrite Nat.sub_diag. reflexivity. Qed.

Lemma numel_lpad (n : nat) (s : list nat) : numel (lpad n s) = numel s.
Proof.
  unfold lpad. induction (n - length s)%nat as [| k IH]; simpl; [reflexivity |].
  rewrite IH. lia.
Qed.

Lemma bdim_same (a : nat) : bdim a a = Some a.
Proof. unfold bdim. rewrite Nat.eqb_refl. reflexivity. Qed.

Lemma bdim_absorb (a b d : nat) : bdim a b = Some d -> bdim d b = Some d.
Proof.
  unfold bdim.
  destruct (Nat.eqb_spec a b) as [-> | Hab].
  - intros [= <-]. rewrite Nat.eqb_refl. reflexivity.
  - destruct (Nat.eqb_spec a 1) as [-> | Ha].
    + intros [= <-]. rewrite Nat.eqb_refl. reflexivity.
    + destruct (Nat.eqb_spec b 1) as [-> | Hb]; [| discriminate].
      intros [= <-]. destruct (Nat.eqb_spec a 1); [contradiction |].
      reflexivity.
Qed.

Lemma bdim_expands (a b d : nat) :
  bdim a b = Some d -> (a = d \/ a = 1%nat) /\ (b = d \/ b = 1%nat).
Proof.
  unfold bdim.
  destruct (Nat.eqb_spec a b) as [-> | Hab]; [intros [= <-]; auto |].
  destruct (Nat.eqb_spec a 1) as [-> | Ha]; [intros [= <-]; auto |].
  destruct (Nat.eqb_spec b 1) as [-> | Hb]; [intros [= <-]; auto |].
  discriminate.
Qed.

Lemma bdims_same (s : list nat) : bdims s s = Some s.
Proof.
  induction s as [| a s IH]; simpl; [reflexivity |].
  rewrite bdim_same, IH. reflexivity.
Qed.

Lemma bdims_absorb (sa sb s : list nat) :
  bdims sa sb = Some s -> bdims s sb = Some s.
Proof.
  revert sb s. induction sa as [| a sa IH]; intros [| b sb] s; simpl;
    try discriminate.
  - intros [= <-]. reflexivity.
  - destruct (bdim a b) as [d |] eqn:Hd; [| discriminate].
    destruct (bdims sa sb) as [s' |] eqn:Hs; [| discriminate].
    intros [= <-]. simpl.
    rewrite (bdim_absorb _ _ _ Hd), (IH _ _ Hs). reflexivity.
Qed.

Lemma bdims_expands (sa sb s : list nat) :
  bdims sa sb = Some s -> expands sa s /\ expands sb s.
Proof.
  revert sb s. induction sa as [| a sa IH]; intros [| b sb] s; simpl;
    try discriminate.
  - intros [= <-]. split; constructor.
  - destruct (bdim a b) as [d |] eqn:Hd; [| discriminate].
    destruct (bdims sa sb) as [s' |] eqn:Hs; [| discriminate].
    intros [= <-].
    destruct (bdim_expands _ _ _ Hd) as [Ha Hb].
    destruct (IH _ _ Hs) as [Hsa Hsb].
    split; constructor; assumption.
Qed.

Lemma bdims_length (sa sb s : list nat) :
  bdims sa sb = Some s -> length s = length sa /\ length s = length sb.
Proof.
  intros H. destruct (bdims_expands _ _ _ H) as [Ha Hb].
  apply Forall2_length in Ha, Hb. split; congruence.
Qed.

Lemma broadcast_shapes_same (s : list nat) : broadcast_shapes s s = Some s.
Proof.
  unfold broadcast_shapes. rewrite Nat.max_id, lpad_self. apply bdims_same.
Qed.

Lemma broadcast_shapes_length (sa sb s : list nat) :
  broadcast_shapes sa sb = Some s ->
  length s = Nat.max (length sa) (length sb).
Proof.
  unfold broadcast_shapes. intros H.
  apply bdims_length in H. destruct H as [H _].
  rewrite H. apply lpad_length. lia.
Qed.

Lemma broadcast_shapes_expands (sa sb s : list nat) :
  broadcast_shapes sa sb = Some s ->
  expands (lpad (length s) sa) s /\ expands (lpad (length s) sb) s.
Proof.
  intros H. rewrite (broadcast_shapes_length _ _ _ H).
  apply bdims_expands. exact H.
Qed.

Lemma broadcast_shapes_absorb (sa sb s : list nat) :
  broadcast_shapes sa sb = Some s -> broadcast_shapes s sb = Some s.
Proof.
  intros H. pose proof (broadcast_shapes_length _ _ _ H) as Hlen.
  unfold broadcast_shapes in *.
  replace (Nat.max (length s) (length sb)) with (length s) by lia.
  rewrite lpad_self. rewrite Hlen.
  eapply bdims_absorb. exact H.
Qed.

Lemma expand_to_length {A : Type} (s : list nat) (t : tensor A) :
  expands (lpad (length s) (shape t)) s -> wf t ->
  length (expand_to s t) = numel s.
Proof.
  intros He Hwf. unfold expand_to. apply expand_length; [exact He |].
  rewrite numel_lpad. exact Hwf.
Qed.

Lemma expand_to_same {A : Type} (t : tensor A) :
  wf t -> expand_to (shape t) t = data t.
Proof.
  intros Hwf. unfold expand_to. rewrite lpad_self. apply expand_same. exact Hwf.
Qed.

(** ** The two-argument arctangent *)

Lemma atan2_0_0 : atan2 0 0 = 0.
Proof.
  unfold atan2.
  destruct (Rlt_dec 0 0) as [H | _]; [lra |].
  destruct (Rlt_dec 0 0) as [H | _]; [lra | reflexivity].
Qed.

Lemma atan2_bounds (y x : R) : - PI < atan2 y x <= PI.
Proof.
  pose proof PI_RGT_0 as Hpi.
  pose proof (atan_bound (y / x)) as [Hlo Hhi].
  unfold atan2.
  destruct (Rlt_dec 0 x) as [Hx | Hx]; [lra |].
  destruct (Rlt_dec x 0) as [Hx' | Hx'].
  - destruct (Rle_dec 0 y) as [Hy | Hy].
    + assert (Hq : y / x <= 0).
      { unfold Rdiv. assert (/ x < 0) by (apply Rinv_lt_0_compat; lra). nra. }
      assert (atan (y / x) <= 0).
      { destruct Hq as [Hq | Hq].
        - apply atan_increasing in Hq. rewrite atan_0 in Hq. lra.
        - rewrite Hq, atan_0. lra. }
      lra.
    + assert (Hq : 0 < y / x).
      { unfold Rdiv. assert (/ x < 0) by (apply Rinv_lt_0_compat; lra). nra. }
      apply atan_increasing in Hq. rewrite atan_0 in Hq. lra.
  - destruct (Rlt_dec 0 y); [lra |].
    destruct (Rlt_dec y 0); lra.
Qed.

Lemma cos_pos_range (t : R) : - PI < t <= PI -> 0 < cos t -> - (PI / 2) < t < PI / 2.
Proof.
  intros [Hlo Hhi] Hc. pose proof PI_RGT_0 as Hpi.
  split.
  - destruct (Rlt_le_dec (- (PI / 2)) t) as [H | H]; [exact H |].
    exfalso. assert (cos (- t) <= 0) by (apply cos_le_0; lra).
    rewrite cos_neg in *. lra.
  - destruct (Rlt_le_dec t (PI / 2)) as [H | H]; [exact H |].
    exfalso. assert (cos t <= 0) by (apply cos_le_0; lra). lra.
Qed.

Lemma tan_shift (t : R) : cos t <> 0 -> tan (t - PI) = tan t.
Proof.
  intros Hc. unfold tan.
  replace (t - PI) with (- (PI - t)) by ring.
  rewrite sin_neg, cos_neg.
  replace (PI - t) with (- t + PI) by ring.
  rewrite neg_sin, neg_cos, sin_neg, cos_neg. field. exact Hc.
Qed.

Lemma tan_shift' (t : R) : cos t <> 0 -> tan (t + PI) = tan t.
Proof.
  intros Hc. unfold tan. rewrite neg_sin, neg_cos. field. exact Hc.
Qed.

Lemma atan2_sin_cos (t : R) : - PI < t <= PI -> atan2 (sin t) (cos t) = t.
Proof.
  intros [Hlo Hhi]. pose proof PI_RGT_0 as Hpi.
  unfold atan2.
  destruct (Rlt_dec 0 (cos t)) as [Hc | Hc].
  - fold (tan t). apply atan_tan. apply cos_pos_range; [lra | exact Hc].
  - destruct (Rlt_dec (cos t) 0) as [Hc' | Hc'].
    + fold (tan t).
      destruct (Rle_dec 0 (sin t)) as [Hs | Hs].
      * assert (Ht : PI / 2 < t).
        { destruct (Rlt_le_dec (PI / 2) t) as [H | H]; [exact H |]. exfalso.
          destruct (Rlt_le_dec (- (PI / 2)) t) as [H' | H'].
          - destruct H as [H | H].
            + assert (0 < cos t) by (apply cos_gt_0; lra). lra.
            + rewrite H, cos_PI2 in Hc'. lra.
          - destruct (Rle_lt_or_eq_dec _ _ H') as [H'' | H''].
            + assert (sin t < 0) by (apply sin_lt_0_var; lra). lra.
            + rewrite H'', cos_neg, cos_PI2 in Hc'. lra. }
        rewrite <- (tan_shift t) by lra.
        rewrite atan_tan by lra. ring.
      * assert (Ht : t < - (PI / 2)).
        { destruct (Rlt_le_dec t (- (PI / 2))) as [H | H]; [exact H |]. exfalso.
          destruct (Rle_lt_dec 0 t) as [H' | H'].
          - assert (0 <= sin t) by (apply sin_ge_0; lra). lra.
          - assert (0 <= cos t) by (apply cos_ge_0; lra). lra. }
        rewrite <- (tan_shift' t) by lra.
        rewrite atan_tan by lra. ring.
    + assert (Hc0 : cos t = 0) by lra.
      assert (Ht : t = PI / 2 \/ t = - (PI / 2)).
      { destruct (Rtotal_order t (PI / 2)) as [H | [H | H]]; [| now left |].
        - destruct (Rtotal_order t (- (PI / 2))) as [H' | [H' | H']];
            [| now right |].
          + assert (cos (- t) < 0) by (apply cos_lt_0; lra).
            rewrite cos_neg in *. lra.
          + assert (0 < cos t) by (apply cos_gt_0; lra). lra.
        - assert (cos t < 0) by (apply cos_lt_0; lra). lra. }
      destruct Ht as [Ht | Ht]; rewrite Ht.
      * rewrite sin_PI2.
        destruct (Rlt_dec 0 1) as [_ | H]; [reflexivity | lra].
      * rewrite sin_neg, sin_PI2.
        destruct (Rlt_dec 0 (- (1))) as [H | _]; [lra |].
        destruct (Rlt_dec (- (1)) 0) as [_ | H]; [reflexivity | lra].
Qed.

(** ** Element-wise operations on tensors of one shape *)

Lemma binop_device_same {A B : Type} (a : tensor A) (b : tensor B) :
  dev a = dev b -> binop_device a b = Ok (dev a).
Proof.
  intros H. unfold binop_device. rewrite H.
  destruct (dev b); reflexivity.
Qed.

Lemma binop_same {A B C : Type} (f : A -> B -> C) (a : tensor A)
  (b : tensor B) :
  wf a -> wf b -> shape a = shape b -> dev a = dev b ->
  binop f a b = Ok (mkTensor (dev a) (shape a) (zip_with f (data a) (data b))).
Proof.
  intros Ha Hb Hs Hd. unfold binop.
  rewrite (binop_device_same _ _ Hd). simpl.
  rewrite <- Hs, broadcast_shapes_same.
  rewrite expand_to_same by exact Ha.
  rewrite Hs, expand_to_same by exact Hb.
  reflexivity.
Qed.

Lemma infer_size_mul (k n : nat) : k <> 0%nat -> infer_size (k * n) k = Ok n.
Proof.
  intros Hk. unfold infer_size.
  destruct (Nat.eqb_spec k 0) as [H | _]; [contradiction |].
  rewrite (Nat.mul_comm k n), Nat.Div0.mod_mul, Nat.div_mul by exact Hk.
  reflexivity.
Qed.

Lemma select_pairs (m : nat) (l : list R) :
  length l = (m * 2)%nat ->
  let sel := fun i =>
    concat (map (fun pair : list R => firstn 1 (skipn i pair)) (chunks 2 m l)) in
  length (sel 0%nat) = m /\ length (sel 1%nat) = m
  /\ zip_with atan2 (sel 1%nat) (sel 0%nat) = decode_pairs l.
Proof.
  revert l. induction m as [| m IH]; intros l Hl.
  - destruct l; [| discriminate]. repeat split.
  - destruct l as [| c [| s l]]; try discriminate.
    simpl in Hl. assert (Hl' : length l = (m * 2)%nat) by lia.
    destruct (IH l Hl') as (H0 & H1 & Hz).
    cbn zeta in *. simpl.
    repeat split; try (f_equal; assumption).
    rewrite zip_with_cons. f_equal. exact Hz.
Qed.

(** [inverse_trig_transform] on a tensor whose first dimension is not
    empty and whose slices along it hold whole residues of 22 values:
    each consecutive (cosine, sine) pair gives its angle. *)
Lemma inverse_trig_transform_ok (t : tensor R) (s0 n : nat)
  (rest : list nat) :
  wf t -> shape t = s0 :: rest -> s0 <> 0%nat ->
  numel rest = (n * 22)%nat ->
  inverse_trig_transform t
  = Ok (mkTensor (dev t) [s0; n; 11]%nat (decode_pairs (data t))).
Proof.
  intros Hwf Hs Hs0 Hn. unfold inverse_trig_transform, view_pairs.
  assert (Hnum : numel (shape t) = ((s0 * 11 * 2) * n)%nat).
  { rewrite Hs. simpl. rewrite Hn. lia. }
  rewrite Hs. rewrite <- Hs at 1. rewrite Hnum.
  rewrite infer_size_mul by lia.
  unfold index_last. cbn [bind shape dev data Nat.ltb Nat.leb].
  assert (Hlen : length (data t) = ((s0 * n * 11) * 2)%nat).
  { rewrite Hwf, Hnum. lia. }
  destruct (select_pairs _ _ Hlen) as (H0 & H1 & Hz). cbn zeta in *.
  unfold tatan2. rewrite binop_same.
  - cbn [shape dev data]. rewrite Hz. reflexivity.
  - unfold wf. cbn [shape data]. rewrite H1. simpl. lia.
  - unfold wf. cbn [shape data]. rewrite H0. simpl. lia.
  - reflexivity.
  - reflexivity.
Qed.

(** Rewrites the decoding of a tensor of shape [(B, L, 22)] found in the
    goal, its side conditions being among the hypotheses. *)
Ltac decode_at B L :=
  rewrite (inverse_trig_transform_ok _ B L [L; 22]%nat);
  [| assumption | assumption | assumption | simpl; lia].

(** ** The Angle Codec *)

Lemma decode_pairs_encode (angles : list R) :
  Forall (fun a => - PI < a <= PI) angles ->
  decode_pairs (trig_encode angles) = angles.
Proof.
  induction 1 as [| a angles Ha _ IH]; simpl; [reflexivity |].
  fold (trig_encode angles). rewrite IH, atan2_sin_cos by exact Ha.
  reflexivity.
Qed.

Lemma trig_encode_length (angles : list R) :
  length (trig_encode angles) = (length angles * 2)%nat.
Proof.
  induction angles as [| a angles IH]; simpl; [reflexivity |].
  fold (trig_encode angles). rewrite IH. reflexivity.
Qed.

Lemma decode_pairs_length (m : nat) (l : list R) :
  length l = (m * 2)%nat -> length (decode_pairs l) = m.
Proof.
  revert l. induction m as [| m IH]; intros l Hl.
  - destruct l; [reflexivity | discriminate].
  - destruct l as [| c [| s l]]; try discriminate.
    simpl. f_equal. apply IH. simpl in Hl. lia.
Qed.

Lemma decode_pairs_nth (l : list R) (i : nat) :
  (i < length (decode_pairs l))%nat ->
  nth i (decode_pairs l) 0
  = atan2 (nth (2 * i + 1) l 0) (nth (2 * i) l 0).
Proof.
  revert l. induction i as [| i IH]; intros l Hi.
  - destruct l as [| c [| s l]]; try (simpl in Hi; lia). reflexivity.
  - destruct l as [| c [| s l]]; try (simpl in Hi; lia).
    simpl in Hi. apply Nat.succ_lt_mono in Hi.
    replace (2 * S i + 1)%nat with (S (S (2 * i + 1))) by lia.
    replace (2 * S i)%nat with (S (S (2 * i))) by lia.
    cbn [decode_pairs nth]. apply IH. exact Hi.
Qed.

Lemma numel_app (s1 s2 : list nat) :
  numel (s1 ++ s2) = (numel s1 * numel s2)%nat.
Proof.
  induction s1 as [| a s1 IH]; simpl; [lia |]. rewrite IH. lia.
Qed.

(** C3: for angles in (-pi, pi], decoding the tensor of their
    (cosine, sine) pairs with [inverse_trig_transform] gives the angles
    back, exactly. *)
Theorem codec_round_trip :
  forall (d : device) (B L : nat) (angles : list R),
    B <> 0%nat ->
    length angles = (B * L * 11)%nat ->
    Forall (fun a => - PI < a <= PI) angles ->
    inverse_trig_transform (mkTensor d [B; L; 22]%nat (trig_encode angles))
    = Ok (mkTensor d [B; L; 11]%nat angles).
Proof.
  intros d B L angles HB Hlen Hrange.
  rewrite (inverse_trig_transform_ok _ B L [L; 22]%nat).
  - cbn [dev data]. rewrite decode_pairs_encode by exact Hrange. reflexivity.
  - unfold wf. cbn [shape data]. rewrite trig_encode_length, Hlen.
    simpl. lia.
  - reflexivity.
  - exact HB.
  - simpl. lia.
Qed.

(** C7, as the code has it, over exact reals: on every contiguous tensor
    whose first dimension is not empty and whose last dimension, one of
    at least two, is 22, for all real values of the (cosine, sine)
    pairs, [inverse_trig_transform] returns a tensor of the angles of
    the pairs; every angle lies in (-pi, pi] and the pair (0, 0) gives
    the angle 0.  The values are real numbers: the zero has no sign, and
    the signed zeros and the values that are not finite of a
    floating-point type are outside the statement. *)
Theorem codec_total_bounded :
  forall (t : tensor R) (s0 : nat) (mid : list nat),
    wf t ->
    shape t = s0 :: mid ++ [22%nat] ->
    s0 <> 0%nat ->
    exists out,
      inverse_trig_transform t = Ok out
      /\ shape out = [s0; numel mid; 11]%nat
      /\ wf out
      /\ forall i, (i < length (data out))%nat ->
           let c := nth (2 * i) (data t) 0 in
           let s := nth (2 * i + 1) (data t) 0 in
           nth i (data out) 0 = atan2 s c
           /\ - PI < nth i (data out) 0 <= PI
           /\ (c = 0 -> s = 0 -> nth i (data out) 0 = 0).
Proof.
  intros t s0 mid Hwf Hs Hs0.
  assert (Hn : numel (mid ++ [22%nat]) = (numel mid * 22)%nat).
  { rewrite numel_app. simpl. lia. }
  eexists. split; [| split; [| split]].
  - apply (inverse_trig_transform_ok t s0 (numel mid) _ Hwf Hs Hs0 Hn).
  - reflexivity.
  - unfold wf. cbn [shape data].
    rewrite (decode_pairs_length (s0 * numel mid * 11)).
    + simpl. lia.
    + rewrite Hwf, Hs. cbn [numel fold_right]. fold (numel (mid ++ [22%nat])).
      rewrite Hn. lia.
  - cbn [data]. intros i Hi. cbv zeta.
    rewrite (decode_pairs_nth _ _ Hi).
    split; [reflexivity |]. split; [apply atan2_bounds |].
    intros -> ->. apply atan2_0_0.
Qed.

(** ** The padding mask *)

Lemma mask01_cases (x : R) :
  (x = 0 /\ mask01 x = 0) \/ (x <> 0 /\ mask01 x = 1).
Proof.
  unfold mask01, ne0. destruct (Req_EM_T x 0) as [H | H]; simpl; auto.
Qed.

Lemma mask01_self (x : R) : x * mask01 x = x.
Proof. destruct (mask01_cases x) as [[-> ->] | [_ ->]]; ring. Qed.

Lemma mask01_idem (p x : R) : p * mask01 x * mask01 x = p * mask01 x.
Proof. destruct (mask01_cases x) as [[_ ->] | [_ ->]]; ring. Qed.

Lemma mask_of_wf (d : device) (g : tensor R) : wf g -> wf (mask_of d g).
Proof. unfold wf, mask_of. simpl. rewrite length_map. auto. Qed.

Lemma type_float_cpu (g : tensor R) :
  type_float cpu (tne0 g) = Ok (mask_of cpu g).
Proof.
  unfold type_float, mask_of, tne0, mask01. simpl. rewrite map_map. reflexivity.
Qed.

Lemma type_float_cuda (g : tensor R) :
  type_float cuda (tne0 g)
  = if cuda_is_available then Ok (mask_of cuda g) else Raise CudaUnavailable.
Proof.
  unfold type_float, mask_of, tne0, mask01. simpl.
  destruct cuda_is_available; simpl; [rewrite map_map |]; reflexivity.
Qed.

Lemma unpad_cpu (pred gold : tensor R) :
  unpad_angle_vectors pred gold cpu
  = (pred_unpadded <- tmul pred (mask_of cpu gold) ;;
     gold_unpadded <- tmul gold (mask_of cpu gold) ;;
     Ok (pred_unpadded, gold_unpadded)).
Proof. unfold unpad_angle_vectors. rewrite type_float_cpu. reflexivity. Qed.

Lemma unpad_cuda (pred gold : tensor R) :
  unpad_angle_vectors pred gold cuda
  = if cuda_is_available then
      pred_unpadded <- tmul (mkTensor cuda (shape pred) (data pred))
                         (mask_of cuda gold) ;;
      gold_unpadded <- tmul (mkTensor cuda (shape gold) (data gold))
                         (mask_of cuda gold) ;;
      Ok (pred_unpadded, gold_unpadded)
    else Raise CudaUnavailable.
Proof.
  unfold unpad_angle_vectors. rewrite type_float_cuda. unfold to.
  destruct cuda_is_available; reflexivity.
Qed.

Lemma zip_with_mask_idem (a b : list R) :
  zip_with Rmult (zip_with Rmult a (map mask01 b)) (map mask01 b)
  = zip_with Rmult a (map mask01 b).
Proof.
  revert b. induction a as [| x a IH]; intros [| y b]; try reflexivity.
  simpl map. rewrite !zip_with_cons, IH, mask01_idem. reflexivity.
Qed.

Lemma binop_device_absorb {A B C : Type} (a : tensor A) (b : tensor B)
  (a' : tensor C) (d : device) :
  binop_device a b = Ok d -> dev a' = d -> binop_device a' b = Ok d.
Proof.
  unfold binop_device, is_cpu_scalar.
  destruct (dev a), (dev b), (dev a'), (shape a), (shape b), (shape a');
    simpl; intros H1 H2; congruence.
Qed.

(** Multiplying by the mask of a tensor a second time changes nothing. *)
Lemma tmul_mask_idem (p g p' : tensor R) (dm : device) :
  wf p -> wf g ->
  tmul p (mask_of dm g) = Ok p' -> tmul p' (mask_of dm g) = Ok p'.
Proof.
  intros Hp Hg. unfold tmul, binop.
  destruct (binop_device p (mask_of dm g)) as [d |] eqn:Hd; [| discriminate].
  cbn [bind].
  destruct (broadcast_shapes (shape p) (shape (mask_of dm g))) as [s |] eqn:Hs;
    [| discriminate].
  intros [= <-]. cbn [shape dev data].
  rewrite (binop_device_absorb _ _ _ _ Hd) by reflexivity. cbn [bind shape].
  rewrite (broadcast_shapes_absorb _ _ _ Hs).
  destruct (broadcast_shapes_expands _ _ _ Hs) as [Hep Hem].
  pose proof (expand_to_length s p Hep Hp) as Hlp.
  pose proof (expand_to_length s _ Hem (mask_of_wf dm g Hg)) as Hlm.
  f_equal. f_equal.
  set (me := expand_to s (mask_of dm g)) in *.
  assert (Hme : me = map mask01 (expand (lpad (length s) (shape g)) s (data g))).
  { unfold me, expand_to, mask_of. cbn [shape data]. apply expand_map. }
  unfold expand_to at 1. cbn [shape data]. rewrite lpad_self, expand_same.
  - rewrite Hme. apply zip_with_mask_idem.
  - rewrite zip_with_length, Hlp, Hlm. apply Nat.min_id.
Qed.

(** The masked reference is the reference: its zeros are where the mask
    is zero. *)
Lemma tmul_mask_self (g g' : tensor R) (dm : device) :
  wf g -> dm = cpu \/ dev g = dm ->
  tmul g (mask_of dm g) = Ok g' -> g' = g.
Proof.
  intros Hg Hdm. unfold tmul, binop.
  destruct (binop_device g (mask_of dm g)) as [d |] eqn:Hd; [| discriminate].
  cbn [bind]. unfold mask_of at 1. cbn [shape].
  rewrite broadcast_shapes_same.
  intros [= <-].
  rewrite expand_to_same by exact Hg.
  replace (expand_to (shape g) (mask_of dm g)) with (map mask01 (data g)).
  2:{ symmetry. apply (expand_to_same (mask_of dm g)). apply mask_of_wf, Hg. }
  rewrite zip_with_map_r, zip_with_diag.
  rewrite (map_ext _ (fun x => x)) by apply mask01_self. rewrite map_id.
  assert (d = dev g).
  { revert Hd. unfold binop_device, is_cpu_scalar, mask_of. cbn [dev shape].
    destruct Hdm as [-> | <-].
    - destruct (dev g), (shape g); simpl; congruence.
    - destruct (dev g); simpl; congruence. }
  subst d. destruct g; reflexivity.
Qed.

(** C5: applying [unpad_angle_vectors] to its own result gives that
    result again (and it fails twice where it fails once). *)
Theorem unpad_idempotent :
  forall (pred gold : tensor R) (device : device),
    wf pred -> wf gold ->
    ('(pred1, gold1) <- unpad_angle_vectors pred gold device ;;
     unpad_angle_vectors pred1 gold1 device)
    = unpad_angle_vectors pred gold device.
Proof.
  intros pred gold [|] Hp Hg.
  - rewrite unpad_cpu.
    destruct (tmul pred (mask_of cpu gold)) as [p1 |] eqn:Hp1; [| reflexivity].
    destruct (tmul gold (mask_of cpu gold)) as [g1 |] eqn:Hg1; [| reflexivity].
    cbn [bind].
    apply tmul_mask_self in Hg1 as Heq; [| exact Hg | now left]. subst g1.
    rewrite unpad_cpu, (tmul_mask_idem _ _ _ _ Hp Hg Hp1), Hg1.
    reflexivity.
  - rewrite unpad_cuda. destruct cuda_is_available eqn:Hcuda; [| reflexivity].
    set (pc := mkTensor cuda (shape pred) (data pred)).
    set (gc := mkTensor cuda (shape gold) (data gold)).
    change (mask_of cuda gold) with (mask_of cuda gc).
    assert (Hpc : wf pc) by exact Hp.
    assert (Hgc : wf gc) by exact Hg.
    destruct (tmul pc (mask_of cuda gc)) as [p1 |] eqn:Hp1; [| reflexivity].
    destruct (tmul gc (mask_of cuda gc)) as [g1 |] eqn:Hg1; [| reflexivity].
    cbn [bind].
    apply tmul_mask_self in Hg1 as Heq; [| exact Hgc | now right]. subst g1.
    rewrite unpad_cuda, Hcuda.
    assert (Hd1 : dev p1 = cuda).
    { revert Hp1. unfold tmul, binop, binop_device. cbn [dev device_eqb bind].
      destruct (broadcast_shapes _ _); [| discriminate].
      intros [= <-]. reflexivity. }
    replace (mkTensor cuda (shape p1) (data p1)) with p1
      by (destruct p1; simpl in Hd1; subst; reflexivity).
    change (mkTensor cuda (shape gc) (data gc)) with gc.
    rewrite (tmul_mask_idem _ _ _ _ Hpc Hgc Hp1), Hg1.
    reflexivity.
Qed.

Lemma zip_with_wf (f : R -> R -> R) (d : device) (s : list nat)
  (l1 l2 : list R) :
  length l1 = numel s -> length l2 = numel s ->
  wf (mkTensor d s (zip_with f l1 l2)).
Proof.
  intros H1 H2. unfold wf. cbn [shape data].
  rewrite zip_with_length, H1, H2. apply Nat.min_id.
Qed.

(** [unpad_angle_vectors] on two tensors of one shape, both on the device
    it is given: each tensor times the 0/1 mask of the reference. *)
Lemma unpad_same (pred gold : tensor R) (d : device) :
  wf pred -> wf gold -> shape pred = shape gold ->
  dev pred = d -> dev gold = d ->
  (d = cuda -> cuda_is_available = true) ->
  unpad_angle_vectors pred gold d
  = Ok (mkTensor d (shape gold)
          (zip_with Rmult (data pred) (map mask01 (data gold))),
        mkTensor d (shape gold)
          (zip_with Rmult (data gold) (map mask01 (data gold)))).
Proof.
  intros Hp Hg Hs Hdp Hdg Hcuda.
  assert (Hmul : forall t : tensor R,
    wf t -> shape t = shape gold -> dev t = d ->
    tmul t (mask_of d gold)
    = Ok (mkTensor d (shape gold)
            (zip_with Rmult (data t) (map mask01 (data gold))))).
  { intros t Ht Hst Hdt. unfold tmul. rewrite binop_same.
    - rewrite Hst, Hdt. reflexivity.
    - exact Ht.
    - apply mask_of_wf, Hg.
    - exact Hst.
    - exact Hdt. }
  destruct d.
  - rewrite unpad_cpu, (Hmul pred), (Hmul gold) by auto. reflexivity.
  - rewrite unpad_cuda, (Hcuda eq_refl).
    replace (mkTensor cuda (shape pred) (data pred)) with pred
      by (destruct pred; simpl in *; subst; reflexivity).
    replace (mkTensor cuda (shape gold) (data gold)) with gold
      by (destruct gold; simpl in *; subst; reflexivity).
    rewrite (Hmul pred), (Hmul gold) by auto. reflexivity.
Qed.

Lemma zip_with_mask_agree (a a' b : list R) :
  length a' = length a ->
  (forall i, nth i b 0 <> 0 -> nth i a' 0 = nth i a 0) ->
  zip_with Rmult a' (map mask01 b) = zip_with Rmult a (map mask01 b).
Proof.
  revert a' b. induction a as [| x a IH]; intros [| x' a'] [| y b] Hlen Hag;
    try discriminate; try reflexivity.
  simpl map. rewrite !zip_with_cons. f_equal.
  - destruct (mask01_cases y) as [[_ ->] | [Hy ->]]; [ring |].
    f_equal. exact (Hag 0%nat Hy).
  - apply IH.
    + simpl in Hlen. lia.
    + intros i Hi. apply (Hag (S i)). exact Hi.
Qed.

(** ** The losses on tensors of one shape *)

Lemma mean_stack_nonempty (losses : list R) :
  losses <> [] ->
  mean_stack losses = Ok (Rsum losses / INR (length losses)).
Proof. destruct losses; [contradiction | reflexivity]. Qed.

Lemma example_losses_length (B L : nat) (pd gd : list R) :
  length (example_losses B L pd gd) = B.
Proof.
  unfold example_losses.
  rewrite length_map, length_combine, !length_map, !chunks_length.
  apply Nat.min_id.
Qed.

Lemma example_losses_nth (B L : nat) (pd gd : list R) (i : nat) :
  (i < B)%nat ->
  nth i (example_losses B L pd gd) 0
  = drmsd
      (angles2coords
         (mkTensor cpu [L; 11]%nat
            (nth i (chunks (L * 11) B (masked_angles pd gd)) [])) cpu)
      (angles2coords
         (mkTensor cpu [L; 11]%nat
            (nth i (chunks (L * 11) B (masked_angles gd gd)) [])) cpu).
Proof.
  intros Hi. unfold example_losses.
  set (f := fun item : tensor R * tensor R =>
              let (pred_item, gold_item) := item in
              let true_coords := angles2coords gold_item cpu in
              let pred_coords := angles2coords pred_item cpu in
              drmsd pred_coords true_coords).
  set (d0 := mkTensor cpu [L; 11]%nat (@nil R)).
  rewrite (nth_indep _ 0 (f (d0, d0)))
    by (rewrite length_map, length_combine, !length_map, !chunks_length; lia).
  rewrite map_nth, combine_nth
    by (rewrite !length_map, !chunks_length; reflexivity).
  unfold d0. rewrite !(map_nth (mkTensor cpu [L; 11]%nat)). reflexivity.
Qed.

(** [cal_loss] on a batch of [B] examples of [L] residues. *)
Lemma cal_loss_ok (pred gold : tensor R) (device : device) (B L : nat) :
  wf pred -> wf gold ->
  shape pred = [B; L; 22]%nat -> shape gold = [B; L; 22]%nat ->
  B <> 0%nat ->
  cal_loss pred gold device
  = Ok (Rsum (example_losses B L (data pred) (data gold)) / INR B).
Proof.
  intros Hp Hg Hsp Hsg HB. unfold cal_loss. cbn [to bind].
  decode_at B L. cbn [bind]. decode_at B L.
  cbn [bind dev shape data].
  assert (Hlen : forall t : tensor R, wf t -> shape t = [B; L; 22]%nat ->
    length (decode_pairs (data t)) = numel [B; L; 11]%nat).
  { intros t Ht Hst. rewrite (decode_pairs_length (B * L * 11)).
    - simpl. lia.
    - rewrite Ht, Hst. simpl. lia. }
  rewrite unpad_same; cbn [dev shape data];
    [| unfold wf; cbn [shape data]; auto ..| discriminate].
  cbn [bind iter shape dev data].
  replace (numel [L; 11]%nat) with (L * 11)%nat by (simpl; lia).
  fold (masked_angles (data pred) (data gold)).
  fold (masked_angles (data gold) (data gold)).
  fold (example_losses B L (data pred) (data gold)).
  rewrite mean_stack_nonempty.
  - rewrite example_losses_length. reflexivity.
  - intros Hnil. apply (f_equal (@length R)) in Hnil.
    rewrite example_losses_length in Hnil. simpl in Hnil. contradiction.
Qed.

(** [mse_loss] on two tensors of one shape. *)
Lemma mse_loss_ok (pred gold : tensor R) :
  wf pred -> wf gold -> shape pred = shape gold ->
  mse_loss pred gold
  = Ok (tmean (zip_with (fun x y => (x - y) * (x - y))
                 (zip_with Rmult (data pred) (map mask01 (data gold)))
                 (zip_with Rmult (data gold) (map mask01 (data gold))))).
Proof.
  intros Hp Hg Hs. unfold mse_loss. cbn [to bind].
  rewrite unpad_same; cbn [dev shape data]; auto; [| discriminate].
  cbn [bind]. unfold F_mse_loss.
  rewrite binop_same; cbn [dev shape data]; try reflexivity.
  - apply zip_with_wf; [rewrite Hp, Hs | rewrite length_map, Hg]; reflexivity.
  - apply zip_with_wf; [| rewrite length_map]; exact Hg.
Qed.

Lemma ne0_true (x : R) : ne0 x = true <-> x <> 0.
Proof.
  unfold ne0. destruct (Req_EM_T x 0) as [H | H]; split; intros H';
    try discriminate; try reflexivity; try assumption.
  contradiction.
Qed.

Lemma in_residue_div (w i : nat) : w <> 0%nat -> in_residue w (i / w) i.
Proof.
  intros Hw. unfold in_residue.
  pose proof (Nat.div_mod_eq i w) as Hdm.
  pose proof (Nat.mod_upper_bound i w Hw) as Hub.
  lia.
Qed.

Lemma agree_off_padding_elementwise (w : nat) (gd pd pd' : list R) :
  w <> 0%nat -> agree_off_padding w gd pd pd' ->
  forall i, nth i gd 0 <> 0 -> nth i pd' 0 = nth i pd 0.
Proof.
  intros Hw Hag i Hi.
  destruct (Hag (i / w)%nat) as [Hpad | Heq].
  - exfalso. apply Hi. apply Hpad. apply in_residue_div. exact Hw.
  - apply Heq. apply in_residue_div. exact Hw.
Qed.

(** Predictions that differ only at padded residues decode to angles that
    differ only where the decoded reference is zero. *)
Lemma masked_angles_agree (gd pd pd' : list R) (m : nat) :
  length pd = (m * 2)%nat -> length pd' = (m * 2)%nat ->
  length gd = (m * 2)%nat ->
  agree_off_padding 22 gd pd pd' ->
  masked_angles pd' gd = masked_angles pd gd.
Proof.
  intros Hp Hp' Hg Hag. unfold masked_angles.
  apply zip_with_mask_agree.
  - rewrite !(decode_pairs_length m); auto.
  - intros k Hk.
    assert (Hlt : (k < m)%nat).
    { destruct (Nat.lt_ge_cases k m) as [H | H]; [exact H |].
      exfalso. apply Hk. apply nth_overflow.
      rewrite (decode_pairs_length m); auto. }
    rewrite decode_pairs_nth in Hk by (rewrite (decode_pairs_length m); auto).
    rewrite !decode_pairs_nth by (rewrite (decode_pairs_length m); auto).
    pose proof (Nat.div_mod_eq k 11) as Hdm.
    pose proof (Nat.mod_upper_bound k 11 ltac:(discriminate)) as Hub.
    destruct (Hag (k / 11)%nat) as [Hpad | Heq].
    + exfalso. apply Hk.
      rewrite !Hpad by (unfold in_residue; lia). apply atan2_0_0.
    + rewrite !Heq by (unfold in_residue; lia). reflexivity.
Qed.

(** C1, as the code has it: the mask holds one boolean per element of the
    reference tensor (per decoded angle inside [cal_loss]), true exactly
    when that element is not zero; it is computed from the reference
    alone and the same 0/1 mask multiplies the prediction and the
    reference.  Tensor elements being real numbers, that is finite
    values, whose product with 0 is 0, the values of the prediction at
    residues whose reference encoding is all zero contribute nothing to
    [mse_loss], on two tensors of one shape, or to [cal_loss], on two
    tensors of one shape (B, L, 22) with B >= 1.  Infinities and
    not-a-numbers are outside the statement. *)
Theorem validity_mask_elementwise :
  forall (pred gold : tensor R),
    wf pred -> wf gold -> shape pred = shape gold ->
    shape (tne0 gold) = shape gold
    /\ (forall i, (i < length (data gold))%nat ->
          nth i (data (tne0 gold)) false = true <-> nth i (data gold) 0 <> 0)
    /\ (forall d,
          dev pred = d -> dev gold = d ->
          (d = cuda -> cuda_is_available = true) ->
          unpad_angle_vectors pred gold d
          = Ok (mkTensor d (shape gold)
                  (zip_with Rmult (data pred) (map mask01 (data gold))),
                mkTensor d (shape gold)
                  (zip_with Rmult (data gold) (map mask01 (data gold)))))
    /\ (forall pred',
          wf pred' -> shape pred' = shape gold ->
          agree_off_padding 22 (data gold) (data pred) (data pred') ->
          mse_loss pred' gold = mse_loss pred gold
          /\ forall B L d d',
               shape gold = [B; L; 22]%nat -> B <> 0%nat ->
               cal_loss pred' gold d' = cal_loss pred gold d).
Proof.
  intros pred gold Hp Hg Hs. split; [reflexivity |]. split; [| split].
  - intros i Hi. cbn [tne0 data].
    rewrite (nth_indep _ false (ne0 0)) by (rewrite length_map; exact Hi).
    rewrite map_nth. apply ne0_true.
  - intros d Hdp Hdg Hcuda. apply unpad_same; assumption.
  - intros pred' Hp' Hs' Hag. split.
    + rewrite !mse_loss_ok by congruence.
      rewrite (zip_with_mask_agree (data pred) (data pred')).
      * reflexivity.
      * rewrite Hp, Hp'. congruence.
      * apply (agree_off_padding_elementwise 22); [discriminate | exact Hag].
    + intros B L d d' Hsg HB.
      rewrite !(cal_loss_ok _ _ _ B L) by congruence.
      unfold example_losses.
      rewrite (masked_angles_agree (data gold) (data pred) (data pred')
                 (B * L * 11)); try exact Hag.
      * reflexivity.
      * rewrite Hp, Hs, Hsg. simpl. lia.
      * rewrite Hp', Hs', Hsg. simpl. lia.
      * rewrite Hg, Hsg. simpl. lia.
Qed.

(** C4: [cal_loss] computes one loss per example of the batch and
    returns their arithmetic mean; per-example losses 0.1, 0.2, 0.3 and
    0.4 give 0.25. *)
Theorem cal_loss_batch_mean :
  forall (pred gold : tensor R) (device : device) (B L : nat),
    wf pred -> wf gold ->
    shape pred = [B; L; 22]%nat -> shape gold = [B; L; 22]%nat ->
    B <> 0%nat ->
    let losses := example_losses B L (data pred) (data gold) in
    let masked_pred := masked_angles (data pred) (data gold) in
    let masked_gold := masked_angles (data gold) (data gold) in
    length losses = B
    /\ (forall i, (i < B)%nat ->
          nth i losses 0
          = drmsd
              (angles2coords
                 (mkTensor cpu [L; 11]%nat
                    (nth i (chunks (L * 11) B masked_pred) [])) cpu)
              (angles2coords
                 (mkTensor cpu [L; 11]%nat
                    (nth i (chunks (L * 11) B masked_gold) [])) cpu))
    /\ cal_loss pred gold device = Ok (Rsum losses / INR (length losses))
    /\ (losses = [0.1; 0.2; 0.3; 0.4] ->
        cal_loss pred gold device = Ok 0.25).
Proof.
  intros pred gold device B L Hp Hg Hsp Hsg HB losses masked_pred masked_gold.
  pose proof (example_losses_length B L (data pred) (data gold)) as Hlen.
  fold losses in Hlen.
  assert (Hcal : cal_loss pred gold device
                 = Ok (Rsum losses / INR (length losses))).
  { rewrite Hlen. apply cal_loss_ok; assumption. }
  split; [exact Hlen |]. split; [| split; [exact Hcal |]].
  - intros i Hi. apply example_losses_nth. exact Hi.
  - intros Hl. rewrite Hcal, Hl. f_equal. simpl. lra.
Qed.

(** C2, as the code has it: [mse_loss] applies the padding mask to the two
    tensors as they are given, without decoding them, and returns the
    mean squared error of the two masked tensors (not-a-number when they
    are empty); it reconstructs no structure. *)
Theorem mse_loss_masks_without_decoding :
  forall (pred gold : tensor R),
    wf pred -> wf gold -> shape pred = shape gold ->
    let mask := map mask01 (data gold) in
    let pred_unpadded := zip_with Rmult (data pred) mask in
    let gold_unpadded := zip_with Rmult (data gold) mask in
    let sq := zip_with (fun x y => (x - y) * (x - y))
                pred_unpadded gold_unpadded in
    length sq = numel (shape gold)
    /\ mse_loss pred gold
       = Ok (match sq with
             | [] => NaN
             | _ => Num (Rsum sq / INR (numel (shape gold)))
             end).
Proof.
  intros pred gold Hp Hg Hs mask pu gu sq.
  assert (Hlen : length sq = numel (shape gold)).
  { unfold sq, pu, gu, mask. rewrite !zip_with_length, length_map, Hp, Hg, Hs.
    rewrite !Nat.min_id. reflexivity. }
  split; [exact Hlen |].
  rewrite mse_loss_ok by assumption. fold mask pu gu sq.
  unfold tmean. rewrite Hlen. reflexivity.
Qed.

(** ** Tensors of different shapes *)

Lemma binop_cpu {A B C : Type} (f : A -> B -> C) (a : tensor A)
  (b : tensor B) :
  dev a = cpu -> dev b = cpu ->
  binop f a b
  = match broadcast_shapes (shape a) (shape b) with
    | None => Raise RuntimeError
    | Some s =>
        Ok (mkTensor cpu s (zip_with f (expand_to s a) (expand_to s b)))
    end.
Proof.
  intros Ha Hb. unfold binop.
  rewrite binop_device_same by congruence. rewrite Ha. reflexivity.
Qed.








(** ** Values used on concrete tensors *)

Lemma ne0_0 : ne0 0 = false.
Proof.
  unfold ne0. destruct (Req_EM_T 0 0) as [_ | H]; [reflexivity |].
  exfalso. apply H. reflexivity.
Qed.

Lemma ne0_nonzero (x : R) : x <> 0 -> ne0 x = true.
Proof. apply ne0_true. Qed.

Lemma mask01_0 : mask01 0 = 0.
Proof. unfold mask01. rewrite ne0_0. reflexivity. Qed.

Lemma mask01_nonzero (x : R) : x <> 0 -> mask01 x = 1.
Proof. intros H. unfold mask01. rewrite ne0_nonzero by exact H. reflexivity. Qed.

Lemma atan2_0_pos (x : R) : 0 < x -> atan2 0 x = 0.
Proof.
  intros Hx. unfold atan2. destruct (Rlt_dec 0 x) as [_ | H]; [| contradiction].
  unfold Rdiv. rewrite Rmult_0_l. apply atan_0.
Qed.

Lemma atan2_1_0 : atan2 1 0 = PI / 2.
Proof.
  unfold atan2.
  destruct (Rlt_dec 0 0) as [H | _]; [lra |].
  destruct (Rlt_dec 0 1) as [_ | H]; [reflexivity | lra].
Qed.

Lemma masked_angles_self (gd : list R) :
  masked_angles gd gd = decode_pairs gd.
Proof.
  unfold masked_angles. rewrite zip_with_map_r, zip_with_diag.
  rewrite (map_ext _ (fun x => x)) by apply mask01_self. apply map_id.
Qed.

(** The loss of the specification's alternate path on a batch of [B]
    examples of [L] residues. *)
Lemma mse_loss_decoded_ok (pred gold : tensor R) (B L : nat) :
  wf pred -> wf gold ->
  shape pred = [B; L; 22]%nat -> shape gold = [B; L; 22]%nat ->
  B <> 0%nat ->
  mse_loss_decoded pred gold
  = Ok (tmean (zip_with (fun x y => (x - y) * (x - y))
                 (masked_angles (data pred) (data gold))
                 (masked_angles (data gold) (data gold)))).
Proof.
  intros Hp Hg Hsp Hsg HB. unfold mse_loss_decoded. cbn [to bind].
  decode_at B L. cbn [bind]. decode_at B L.
  cbn [bind dev shape data].
  assert (Hlen : forall t : tensor R, wf t -> shape t = [B; L; 22]%nat ->
    length (decode_pairs (data t)) = numel [B; L; 11]%nat).
  { intros t Ht Hst. rewrite (decode_pairs_length (B * L * 11)).
    - simpl. lia.
    - rewrite Ht, Hst. simpl. lia. }
  rewrite unpad_same; cbn [dev shape data];
    [| unfold wf; cbn [shape data]; auto ..| discriminate].
  cbn [bind]. unfold F_mse_loss.
  rewrite binop_same; cbn [dev shape data]; try reflexivity.
  - apply zip_with_wf; [| rewrite length_map]; auto.
  - apply zip_with_wf; [| rewrite length_map]; auto.
Qed.

(** ** Further properties of the codec *)

Lemma list_pair_ind {A : Type} (P : list A -> Prop) :
  P [] -> (forall x, P [x]) -> (forall x y l, P l -> P (x :: y :: l)) ->
  forall l, P l.
Proof.
  intros H0 H1 H2 l.
  assert (H : P l /\ forall x, P (x :: l)).
  { induction l as [| y l [IH1 IH2]]; split; auto. }
  apply H.
Qed.

Lemma atan2_scale (k y x : R) : 0 < k -> atan2 (k * y) (k * x) = atan2 y x.
Proof.
  intros Hk. unfold atan2.
  assert (Hq : x <> 0 -> k * y / (k * x) = y / x) by (intros Hx; field; lra).
  destruct (Rlt_dec 0 x) as [Hx | Hx].
  - destruct (Rlt_dec 0 (k * x)) as [_ | H]; [| exfalso; nra].
    rewrite Hq by lra. reflexivity.
  - destruct (Rlt_dec 0 (k * x)) as [H | _]; [exfalso; nra |].
    destruct (Rlt_dec x 0) as [Hx' | Hx'].
    + destruct (Rlt_dec (k * x) 0) as [_ | H]; [| exfalso; nra].
      rewrite Hq by lra.
      destruct (Rle_dec 0 y) as [Hy | Hy].
      * destruct (Rle_dec 0 (k * y)) as [_ | H]; [reflexivity | exfalso; nra].
      * destruct (Rle_dec 0 (k * y)) as [H | _]; [exfalso; nra | reflexivity].
    + destruct (Rlt_dec (k * x) 0) as [H | _]; [exfalso; nra |].
      destruct (Rlt_dec 0 y) as [Hy | Hy].
      * destruct (Rlt_dec 0 (k * y)) as [_ | H]; [reflexivity | exfalso; nra].
      * destruct (Rlt_dec 0 (k * y)) as [H | _]; [exfalso; nra |].
        destruct (Rlt_dec y 0) as [Hy' | Hy'].
        -- destruct (Rlt_dec (k * y) 0) as [_ | H]; [reflexivity | exfalso; nra].
        -- destruct (Rlt_dec (k * y) 0) as [H | _]; [exfalso; nra | reflexivity].
Qed.

Lemma zip_with_map_l {A B C D : Type} (f : A -> B -> C) (h : D -> A)
  (l1 : list D) (l2 : list B) :
  zip_with f (map h l1) l2 = zip_with (fun x y => f (h x) y) l1 l2.
Proof.
  revert l2. induction l1 as [| x l1 IH]; intros [| y l2]; try reflexivity.
  simpl map. rewrite !zip_with_cons, IH. reflexivity.
Qed.

Lemma zip_with_ext {A B C : Type} (f g : A -> B -> C) (l1 : list A)
  (l2 : list B) :
  (forall x y, f x y = g x y) -> zip_with f l1 l2 = zip_with g l1 l2.
Proof.
  intros H. unfold zip_with. apply map_ext. intros [x y]. apply H.
Qed.

Lemma index_last_map {A B : Type} (f : A -> B) (i : nat) (t : tensor A) :
  index_last i (mkTensor (dev t) (shape t) (map f (data t)))
  = match index_last i t with
    | Ok r => Ok (mkTensor (dev r) (shape r) (map f (data r)))
    | Raise e => Raise e
    end.
Proof.
  unfold index_last. cbn [shape dev data].
  destruct (shape t) as [| a [| b [| c [| d [| ? ?]]]]]; try reflexivity.
  destruct (i <? d)%nat; [| reflexivity]. cbn [shape dev data].
  do 2 f_equal. rewrite chunks_map, map_map, concat_map, map_map.
  f_equal. apply map_ext. intros pair.
  rewrite skipn_map, firstn_map. reflexivity.
Qed.

(** Decoding does not see a positive factor common to the values. *)
Lemma inverse_trig_transform_tscale (k : R) (t : tensor R) :
  0 < k ->
  inverse_trig_transform (tscale k t) = inverse_trig_transform t.
Proof.
  intros Hk. unfold inverse_trig_transform, view_pairs, tscale.
  cbn [shape dev data].
  destruct (shape t) as [| s0 rest]; [reflexivity |].
  destruct (infer_size _ _) as [n |]; [| reflexivity]. cbn [bind].
  set (v := mkTensor (dev t) [s0; n; 11; 2]%nat (data t)).
  change (mkTensor (dev t) [s0; n; 11; 2]%nat (map (Rmult k) (data t)))
    with (mkTensor (dev v) (shape v) (map (Rmult k) (data v))).
  rewrite !index_last_map.
  destruct (index_last 0 v) as [t_cos |]; [| reflexivity].
  destruct (index_last 1 v) as [t_sin |]; [| reflexivity].
  cbn [bind]. unfold tatan2, binop, binop_device, is_cpu_scalar, expand_to.
  cbn [shape dev data].
  destruct (if device_eqb (dev t_sin) (dev t_cos) then _ else _);
    [| reflexivity].
  cbn [bind].
  destruct (broadcast_shapes (shape t_sin) (shape t_cos)) as [s |];
    [| reflexivity].
  rewrite !expand_map, zip_with_map_l, zip_with_map_r.
  do 2 f_equal. apply zip_with_ext. intros y x. apply atan2_scale. exact Hk.
Qed.

(** X3: The structural loss sees each predicted and reference pair by its
    direction only: positive factors on the two encoded tensors change
    neither the decoded angles nor [cal_loss]. *)
Theorem cal_loss_scale_invariant :
  forall (k k' : R) (pred gold : tensor R) (device : device),
    0 < k -> 0 < k' ->
    inverse_trig_transform (tscale k pred) = inverse_trig_transform pred
    /\ cal_loss (tscale k pred) (tscale k' gold) device
       = cal_loss pred gold device.
Proof.
  intros k k' pred gold device Hk Hk'.
  split; [apply inverse_trig_transform_tscale; exact Hk |].
  unfold cal_loss. cbn [to bind].
  change (mkTensor cpu (shape (tscale k pred)) (data (tscale k pred)))
    with (tscale k (mkTensor cpu (shape pred) (data pred))).
  change (mkTensor cpu (shape (tscale k' gold)) (data (tscale k' gold)))
    with (tscale k' (mkTensor cpu (shape gold) (data gold))).
  rewrite !inverse_trig_transform_tscale by assumption. reflexivity.
Qed.

Lemma unit_denominator (c s : R) :
  c * c + s * s = 1 -> c <> 0 -> sqrt (1 + (s / c)²) = / Rabs c.
Proof.
  intros Hu Hc.
  assert (Habs : 0 < Rabs c) by (apply Rabs_pos_lt; exact Hc).
  replace (1 + (s / c)²) with ((/ Rabs c) * (/ Rabs c)).
  - apply sqrt_square. left. apply Rinv_0_lt_compat. exact Habs.
  - unfold Rsqr.
    assert (Hsq : Rabs c * Rabs c = c * c).
    { unfold Rabs. destruct (Rcase_abs c); ring. }
    replace (/ Rabs c * / Rabs c) with (/ (c * c)).
    + replace (1 + s / c * (s / c)) with ((c * c + s * s) / (c * c))
        by (field; exact Hc).
      rewrite Hu. field. exact Hc.
    + rewrite <- Hsq. field. lra.
Qed.

(** The cosine and sine of the decoded angle of a pair on the unit circle
    are the pair. *)
Lemma cos_sin_atan2 (c s : R) :
  c * c + s * s = 1 -> cos (atan2 s c) = c /\ sin (atan2 s c) = s.
Proof.
  intros Hu. unfold atan2.
  destruct (Rlt_dec 0 c) as [Hc | Hc].
  - rewrite cos_atan, sin_atan, unit_denominator by (assumption || lra).
    rewrite Rabs_pos_eq by lra. split; field; lra.
  - destruct (Rlt_dec c 0) as [Hc' | Hc'].
    + assert (Hd : sqrt (1 + (s / c)²) = / - c).
      { rewrite unit_denominator by (assumption || lra).
        rewrite Rabs_left by exact Hc'. reflexivity. }
      destruct (Rle_dec 0 s) as [Hs | Hs].
      * rewrite neg_cos, neg_sin, cos_atan, sin_atan, Hd. split; field; lra.
      * unfold Rminus. rewrite cos_plus, sin_plus, cos_neg, sin_neg.
        rewrite cos_PI, sin_PI, cos_atan, sin_atan, Hd. split; field; lra.
    + assert (Hc0 : c = 0) by lra. subst c.
      assert (Hs1 : s * s = 1) by lra.
      destruct (Rlt_dec 0 s) as [Hs | Hs].
      * assert (s = 1) by nra. subst s.
        rewrite cos_PI2, sin_PI2. split; reflexivity.
      * destruct (Rlt_dec s 0) as [Hs' | Hs'].
        -- assert (s = - 1) by nra. subst s.
           rewrite cos_neg, sin_neg, cos_PI2, sin_PI2. split; lra.
        -- exfalso. nra.
Qed.

Lemma trig_encode_decode_pairs (l : list R) :
  unit_pairs l -> trig_encode (decode_pairs l) = l.
Proof.
  induction l as [| x | c s l IH] using list_pair_ind; simpl.
  - reflexivity.
  - intros [].
  - intros [Hu Hl]. fold (trig_encode (decode_pairs l)).
    destruct (cos_sin_atan2 c s Hu) as [-> ->]. rewrite IH by exact Hl.
    reflexivity.
Qed.

(** X2: Encoding inverts decoding on pairs of the unit circle: a tensor of
    such pairs is decoded to angles whose (cosine, sine) encoding is the
    tensor again. *)
Theorem codec_encode_after_decode :
  forall (t : tensor R) (B L : nat),
    wf t -> shape t = [B; L; 22]%nat -> B <> 0%nat ->
    unit_pairs (data t) ->
    exists out,
      inverse_trig_transform t = Ok out
      /\ shape out = [B; L; 11]%nat
      /\ trig_encode (data out) = data t.
Proof.
  intros t B L Hwf Hs HB Hu.
  eexists. split; [| split].
  - apply (inverse_trig_transform_ok t B L [L; 22]%nat Hwf Hs HB).
    simpl. lia.
  - reflexivity.
  - cbn [data]. apply trig_encode_decode_pairs. exact Hu.
Qed.

(** X1: Where [inverse_trig_transform] is defined: a tensor without dimension
    has no [shape[0]]; the [view] is refused when the first dimension is
    empty or when a slice along it does not hold whole residues of 22
    values; otherwise the result has the first dimension of the input, 11
    angles per residue and half as many elements. *)
Theorem inverse_trig_transform_domain :
  forall (t : tensor R),
    (shape t = [] -> inverse_trig_transform t = Raise IndexError)
    /\ (forall s0 rest,
          shape t = s0 :: rest ->
          s0 = 0%nat \/ (numel rest mod 22)%nat <> 0%nat ->
          inverse_trig_transform t = Raise RuntimeError)
    /\ (forall s0 rest,
          wf t ->
          shape t = s0 :: rest ->
          s0 <> 0%nat -> (numel rest mod 22 = 0)%nat ->
          inverse_trig_transform t
          = Ok (mkTensor (dev t) [s0; (numel rest / 22); 11]%nat
                  (decode_pairs (data t)))
          /\ (length (decode_pairs (data t)) * 2 = length (data t))%nat).
Proof.
  intros t. split; [| split].
  - intros Hs. unfold inverse_trig_transform, view_pairs. rewrite Hs.
    reflexivity.
  - intros s0 rest Hs Hbad.
    unfold inverse_trig_transform, view_pairs, infer_size. rewrite Hs.
    destruct (Nat.eqb_spec (s0 * 11 * 2) 0) as [_ | Hk]; [reflexivity |].
    destruct Hbad as [-> | Hmod]; [exfalso; apply Hk; reflexivity |].
    replace (numel (s0 :: rest)) with (s0 * numel rest)%nat by reflexivity.
    replace (s0 * 11 * 2)%nat with (s0 * 22)%nat by lia.
    rewrite Nat.Div0.mul_mod_distr_l.
    destruct (Nat.eqb_spec (s0 * (numel rest mod 22)) 0) as [H0 | _];
      [| reflexivity].
    exfalso. apply Nat.eq_mul_0 in H0. destruct H0 as [-> | H0].
    + apply Hk. reflexivity.
    + contradiction.
  - intros s0 rest Hwf Hs Hs0 Hmod.
    assert (Hn : numel rest = (numel rest / 22 * 22)%nat).
    { apply Nat.Div0.div_exact in Hmod. lia. }
    split.
    + apply (inverse_trig_transform_ok t s0 _ rest Hwf Hs Hs0 Hn).
    + assert (Hlen : length (data t) = (s0 * (numel rest / 22) * 11 * 2)%nat).
      { rewrite Hwf, Hs. cbn [numel fold_right]. fold (numel rest).
        set (q := (numel rest / 22)%nat) in *. rewrite Hn. lia. }
      rewrite (decode_pairs_length _ _ Hlen). lia.
Qed.

(** ** Further properties of the padding mask *)

Lemma unpad_wf_broadcast (p m r : tensor R) :
  wf p -> wf m -> tmul p m = Ok r ->
  broadcast_shapes (shape p) (shape m) = Some (shape r) /\ wf r.
Proof.
  intros Hp Hm. unfold tmul, binop.
  destruct (binop_device p m) as [d |]; [| discriminate]. cbn [bind].
  destruct (broadcast_shapes (shape p) (shape m)) as [s |] eqn:Hs;
    [| discriminate].
  intros [= <-]. split; [reflexivity |].
  destruct (broadcast_shapes_expands _ _ _ Hs) as [Hep Hem].
  apply zip_with_wf; apply expand_to_length; assumption.
Qed.

Lemma tmul_cpu_mask_dev (p g r : tensor R) :
  tmul p (mask_of cpu g) = Ok r -> dev r = dev p.
Proof.
  unfold tmul, binop.
  destruct (binop_device p (mask_of cpu g)) as [d |] eqn:Hd; [| discriminate].
  cbn [bind].
  destruct (broadcast_shapes _ _); [| discriminate].
  intros [= <-]. cbn [dev].
  revert Hd. unfold binop_device, is_cpu_scalar, mask_of. cbn [dev shape].
  destruct (dev p), (shape p), (shape g); cbn [device_eqb];
    intros H; first [discriminate H | injection H as <-; reflexivity].
Qed.

(** X4: What [unpad_angle_vectors] returns: the reference comes back
    unchanged (moved to the CUDA device in the CUDA branch), the masked
    prediction has the broadcast shape of the two tensors and stays where
    the prediction was (on the CUDA device in the CUDA branch). *)
Theorem unpad_returns_reference :
  forall (pred gold pred_unpadded gold_unpadded : tensor R) (device : device),
    wf pred -> wf gold ->
    unpad_angle_vectors pred gold device = Ok (pred_unpadded, gold_unpadded) ->
    gold_unpadded
    = match device with
      | cpu => gold
      | cuda => mkTensor cuda (shape gold) (data gold)
      end
    /\ broadcast_shapes (shape pred) (shape gold) = Some (shape pred_unpadded)
    /\ wf pred_unpadded
    /\ dev pred_unpadded = match device with cpu => dev pred | cuda => cuda end.
Proof.
  intros pred gold pu gu [|] Hp Hg.
  - rewrite unpad_cpu.
    destruct (tmul pred (mask_of cpu gold)) as [p1 |] eqn:Hp1; [| discriminate].
    destruct (tmul gold (mask_of cpu gold)) as [g1 |] eqn:Hg1; [| discriminate].
    cbn [bind]. intros [= <- <-].
    apply tmul_mask_self in Hg1; [| exact Hg | now left].
    destruct (unpad_wf_broadcast _ _ _ Hp (mask_of_wf cpu gold Hg) Hp1)
      as [Hs Hw].
    repeat split; try assumption.
    apply (tmul_cpu_mask_dev _ _ _ Hp1).
  - rewrite unpad_cuda. destruct cuda_is_available; [| discriminate].
    set (pc := mkTensor cuda (shape pred) (data pred)).
    set (gc := mkTensor cuda (shape gold) (data gold)).
    change (mask_of cuda gold) with (mask_of cuda gc).
    destruct (tmul pc (mask_of cuda gc)) as [p1 |] eqn:Hp1; [| discriminate].
    destruct (tmul gc (mask_of cuda gc)) as [g1 |] eqn:Hg1; [| discriminate].
    cbn [bind]. intros [= <- <-].
    apply tmul_mask_self in Hg1; [| exact Hg | now right].
    destruct (unpad_wf_broadcast pc _ _ Hp (mask_of_wf cuda gc Hg) Hp1)
      as [Hs Hw].
    repeat split; try assumption.
    revert Hp1. unfold tmul, binop, binop_device. cbn [dev device_eqb bind].
    destruct (broadcast_shapes _ _); [| discriminate].
    intros [= <-]. reflexivity.
Qed.

(** X5: The CPU branch of [unpad_angle_vectors] does not move its inputs: on
    a reference of at least one dimension it succeeds exactly when both
    tensors are on the CPU and their shapes broadcast.  The CUDA branch
    moves both: it succeeds exactly when a CUDA device is present and the
    shapes broadcast. *)
Theorem unpad_devices :
  forall (pred gold : tensor R),
    shape gold <> [] ->
    ((exists r, unpad_angle_vectors pred gold cpu = Ok r)
     <-> dev pred = cpu /\ dev gold = cpu
         /\ broadcast_shapes (shape pred) (shape gold) <> None)
    /\ ((exists r, unpad_angle_vectors pred gold cuda = Ok r)
        <-> cuda_is_available = true
            /\ broadcast_shapes (shape pred) (shape gold) <> None).
Proof.
  intros pred gold Hrank. split.
  - rewrite unpad_cpu. unfold tmul, binop, binop_device, is_cpu_scalar, mask_of.
    cbn [dev shape]. rewrite broadcast_shapes_same.
    destruct (shape gold) as [| g0 grest] eqn:Hsg; [contradiction |].
    destruct (dev pred), (dev gold), (shape pred);
      cbn [device_eqb bind];
      destruct (broadcast_shapes _ (g0 :: grest)); cbn [bind];
      split;
      try (intros [r Hr]; discriminate Hr);
      try (intros (H1 & H2 & H3); try discriminate; exfalso; apply H3;
           reflexivity);
      try (intros _; repeat split; discriminate);
      try (intros _; eexists; reflexivity).
  - rewrite unpad_cuda. destruct cuda_is_available.
    + unfold tmul, binop, binop_device, mask_of. cbn [dev shape device_eqb bind].
      rewrite broadcast_shapes_same.
      destruct (broadcast_shapes (shape pred) (shape gold)); cbn [bind]; split.
      * intros _. split; [reflexivity | discriminate].
      * intros _. eexists. reflexivity.
      * intros [r Hr]. discriminate Hr.
      * intros [_ H]. exfalso. apply H. reflexivity.
    + split.
      * intros [r Hr]. discriminate Hr.
      * intros [H _]. discriminate H.
Qed.

(** ** Further properties of the losses *)

Lemma Rsum_app (l1 l2 : list R) : Rsum (l1 ++ l2) = Rsum l1 + Rsum l2.
Proof.
  induction l1 as [| x l1 IH]; simpl; [ring |]. rewrite IH. ring.
Qed.

Lemma Rsum_nonneg (l : list R) : Forall (fun x => 0 <= x) l -> 0 <= Rsum l.
Proof.
  induction 1 as [| x l Hx _ IH]; simpl; lra.
Qed.

Lemma Rsum_bounds (lo hi : R) (l : list R) :
  Forall (fun x => lo <= x <= hi) l ->
  INR (length l) * lo <= Rsum l <= INR (length l) * hi.
Proof.
  induction 1 as [| x l Hx _ IH].
  - simpl. lra.
  - cbn [length Rsum fold_right]. rewrite S_INR. fold (Rsum l). lra.
Qed.

Lemma mean_bounds (lo hi : R) (l : list R) :
  l <> [] -> Forall (fun x => lo <= x <= hi) l ->
  lo <= Rsum l / INR (length l) <= hi.
Proof.
  intros Hne Hl. pose proof (Rsum_bounds lo hi l Hl) as [H1 H2].
  assert (Hn : 0 < INR (length l)).
  { apply lt_0_INR. destruct l; [contradiction | simpl; lia]. }
  split.
  - apply Rmult_le_reg_r with (INR (length l)); [exact Hn |].
    unfold Rdiv. rewrite Rmult_assoc, Rinv_l by lra. lra.
  - apply Rmult_le_reg_r with (INR (length l)); [exact Hn |].
    unfold Rdiv. rewrite Rmult_assoc, Rinv_l by lra. lra.
Qed.

Lemma masked_squares (pd gd : list R) :
  length pd = length gd ->
  let sq := zip_with (fun x y => (x - y) * (x - y))
              (zip_with Rmult pd (map mask01 gd))
              (zip_with Rmult gd (map mask01 gd)) in
  length sq = length gd
  /\ Forall (fun x => 0 <= x) sq
  /\ (Rsum sq = 0 <-> Forall2 (fun p g => g <> 0 -> p = g) pd gd).
Proof.
  revert gd. induction pd as [| p pd IH]; intros [| g gd] Hlen;
    try discriminate.
  - cbn. repeat split; auto.
  - injection Hlen as Hlen. destruct (IH gd Hlen) as (Hl & Hpos & Hzero).
    cbn zeta in *. simpl map. rewrite !zip_with_cons.
    set (sq := zip_with _ _ _) in *.
    set (h := (p * mask01 g - g * mask01 g) * (p * mask01 g - g * mask01 g)).
    assert (Hh : 0 <= h) by (unfold h; apply Rle_0_sqr).
    assert (Hh0 : h = 0 <-> (g <> 0 -> p = g)).
    { unfold h. destruct (mask01_cases g) as [[-> ->] | [Hg ->]].
      - split; [intros _ H; exfalso; apply H; reflexivity | intros _; ring].
      - split; [intros H _; nra | intros H; rewrite (H Hg); ring]. }
    pose proof (Rsum_nonneg _ Hpos) as Hs.
    split; [simpl; rewrite Hl; reflexivity |]. split; [constructor; assumption |].
    cbn [Rsum fold_right]. fold (Rsum sq). split.
    + intros H. constructor; [apply Hh0; lra | apply Hzero; lra].
    + intros H. inversion H as [| ? ? ? ? H1 H2]; subst.
      apply Hh0 in H1. apply Hzero in H2. lra.
Qed.

(** X6: [mse_loss] on two non-empty tensors of one shape is a number, never
    negative, and zero exactly when the prediction equals the reference
    wherever the reference is not zero. *)
Theorem mse_loss_nonnegative :
  forall (pred gold : tensor R),
    wf pred -> wf gold -> shape pred = shape gold -> data gold <> [] ->
    exists v,
      mse_loss pred gold = Ok (Num v)
      /\ 0 <= v
      /\ (v = 0
          <-> Forall2 (fun p g => g <> 0 -> p = g) (data pred) (data gold)).
Proof.
  intros pred gold Hp Hg Hs Hne.
  assert (Hlen : length (data pred) = length (data gold)).
  { rewrite Hp, Hg, Hs. reflexivity. }
  destruct (masked_squares _ _ Hlen) as (Hl & Hpos & Hzero).
  cbn zeta in *. rewrite mse_loss_ok by assumption.
  set (sq := zip_with _ _ _) in *.
  assert (Hn : 0 < INR (length sq)).
  { apply lt_0_INR. rewrite Hl. destruct (data gold); [contradiction |].
    simpl. lia. }
  exists (Rsum sq / INR (length sq)). split; [| split].
  - unfold tmean. destruct sq; [simpl in Hn; lra | reflexivity].
  - apply Rmult_le_reg_r with (INR (length sq)); [exact Hn |].
    unfold Rdiv. rewrite Rmult_assoc, Rinv_l, Rmult_0_l, Rmult_1_r by lra.
    apply Rsum_nonneg. exact Hpos.
  - rewrite <- Hzero. split.
    + intros H. apply (f_equal (fun x => x * INR (length sq))) in H.
      unfold Rdiv in H.
      rewrite Rmult_assoc, Rinv_l, Rmult_0_l, Rmult_1_r in H by lra. exact H.
    + intros ->. unfold Rdiv. ring.
Qed.

(** X7: [cal_loss] stays within the range of the scores: if every value of
    [drmsd] lies between two bounds, so does every loss [cal_loss]
    returns, whatever the tensors. *)
Theorem cal_loss_between_scores :
  forall (lo hi : R) (pred gold : tensor R) (device : device) (v : R),
    (forall a b, lo <= drmsd a b <= hi) ->
    cal_loss pred gold device = Ok v ->
    lo <= v <= hi.
Proof.
  intros lo hi pred gold device v Hd. unfold cal_loss. cbn [to bind].
  destruct (inverse_trig_transform _) as [p |]; [| discriminate]. cbn [bind].
  destruct (inverse_trig_transform _) as [g |]; [| discriminate]. cbn [bind].
  destruct (unpad_angle_vectors p g cpu) as [[pu gu] |]; [| discriminate].
  cbn [bind].
  destruct (iter pu) as [ps |]; [| discriminate]. cbn [bind].
  destruct (iter gu) as [gs |]; [| discriminate]. cbn [bind].
  set (losses := map _ (combine ps gs)).
  assert (Hl : Forall (fun x => lo <= x <= hi) losses).
  { unfold losses. apply Forall_map. apply Forall_forall.
    intros [pi gi] _. apply Hd. }
  clearbody losses. destruct losses as [| x rest]; [discriminate |].
  unfold mean_stack. intros H. injection H as <-.
  apply (mean_bounds lo hi (x :: rest)); [discriminate | exact Hl].
Qed.

Lemma combine_diag {A : Type} (l : list A) :
  combine l l = map (fun x => (x, x)) l.
Proof. induction l as [| x l IH]; simpl; [| rewrite IH]; reflexivity. Qed.

Lemma example_losses_self (B L : nat) (gd : list R) :
  (forall x, drmsd x x = 0) -> Rsum (example_losses B L gd gd) = 0.
Proof.
  intros Hd. unfold example_losses. rewrite combine_diag, map_map.
  rewrite (map_ext _ (fun _ => 0)) by (intros x; apply Hd).
  generalize (map (mkTensor cpu [L; 11]%nat)
                (chunks (L * 11) B (masked_angles gd gd))).
  intros l. induction l as [| x l IH]; simpl; [| rewrite IH]; ring.
Qed.

(** X8: A prediction equal to the reference: if the score of a structure
    against itself is zero, [cal_loss] of the reference against itself is
    zero. *)
Theorem cal_loss_perfect_prediction :
  forall (gold : tensor R) (device : device) (B L : nat),
    (forall x, drmsd x x = 0) ->
    wf gold -> shape gold = [B; L; 22]%nat -> B <> 0%nat ->
    cal_loss gold gold device = Ok 0.
Proof.
  intros gold device B L Hd Hg Hs HB.
  rewrite (cal_loss_ok _ _ _ B L) by assumption.
  rewrite (example_losses_self B L _ Hd).
  unfold Rdiv. rewrite Rmult_0_l. reflexivity.
Qed.

Lemma broadcast_lead1 (B L : nat) :
  broadcast_shapes [B; L; 11]%nat [1; L; 11]%nat = Some [B; L; 11]%nat.
Proof.
  unfold broadcast_shapes. cbn [length Nat.max lpad Nat.sub repeat app bdims].
  assert (HB : bdim B 1 = Some B).
  { unfold bdim. destruct (B =? 1)%nat; reflexivity. }
  rewrite HB, bdim_same. reflexivity.
Qed.

Lemma expand_lead1 {A : Type} (s : list nat) (b : nat) (m : list A) :
  length m = numel s ->
  expand (1 :: s)%nat (S b :: s) m = concat (repeat m (S b)).
Proof.
  intros Hm. cbn [expand chunks map].
  rewrite <- Hm, firstn_all, expand_same by exact Hm.
  cbn [concat]. rewrite app_nil_r.
  destruct (Nat.eqb_spec 1 (S b)) as [Hb | _]; [| reflexivity].
  injection Hb as <-. simpl. rewrite app_nil_r. reflexivity.
Qed.

Lemma decode_pairs_firstn (k : nat) (l : list R) :
  decode_pairs (firstn (k * 2) l) = firstn k (decode_pairs l).
Proof.
  revert k. induction l as [| x | c s l IH] using list_pair_ind; intros k.
  - rewrite !firstn_nil. reflexivity.
  - destruct k; reflexivity.
  - destruct k; [reflexivity |]. simpl. rewrite <- IH. reflexivity.
Qed.

Lemma firstn_zip_with {A B C : Type} (f : A -> B -> C) (n : nat)
  (a : list A) (b : list B) :
  firstn n (zip_with f a b) = zip_with f (firstn n a) (firstn n b).
Proof.
  revert a b. induction n as [| n IH]; intros [| x a] [| y b]; try reflexivity.
  rewrite zip_with_cons. cbn [firstn]. rewrite zip_with_cons, IH. reflexivity.
Qed.

Lemma firstn_concat_repeat {A : Type} (m : list A) (b : nat) :
  firstn (length m) (concat (repeat m (S b))) = m.
Proof.
  simpl. rewrite firstn_app, firstn_all, Nat.sub_diag. simpl.
  apply app_nil_r.
Qed.

(** X9: A prediction batch of several examples against a reference batch of
    one: the mask is broadcast to every predicted example, but the loop
    of [cal_loss] pairs the examples up and stops after the first, so the
    loss is that of the first predicted example alone. *)
Theorem cal_loss_scores_first_example_only :
  forall (pred gold : tensor R) (device : device) (B L : nat),
    wf pred -> wf gold ->
    shape pred = [B; L; 22]%nat -> shape gold = [1; L; 22]%nat ->
    B <> 0%nat ->
    cal_loss pred gold device
    = cal_loss (mkTensor (dev pred) [1; L; 22]%nat
                  (firstn (L * 22) (data pred)))
        gold device.
Proof.
  intros pred gold device B L Hp Hg Hsp Hsg HB.
  assert (H1 : 1%nat <> 0%nat) by discriminate.
  assert (Hlp : length (data pred) = (B * L * 22)%nat).
  { rewrite Hp, Hsp. simpl. lia. }
  assert (Hlg : length (data gold) = (L * 11 * 2)%nat).
  { rewrite Hg, Hsg. simpl. lia. }
  set (pred1 := mkTensor (dev pred) [1; L; 22]%nat
                  (firstn (L * 22) (data pred))).
  assert (Hp1 : wf pred1).
  { unfold wf, pred1. cbn [shape data]. rewrite length_firstn, Hlp.
    simpl. destruct B; [contradiction | nia]. }
  rewrite (cal_loss_ok pred1 gold device 1 L Hp1 Hg eq_refl Hsg H1).
  unfold cal_loss. cbn [to bind].
  decode_at B L. cbn [bind]. decode_at 1%nat L. cbn [bind dev].
  rewrite unpad_cpu. unfold tmul. rewrite !binop_cpu by reflexivity.
  cbn [shape mask_of]. rewrite broadcast_lead1, broadcast_shapes_same.
  cbn [bind iter shape dev data].
  set (dp := decode_pairs (data pred)).
  set (dg := decode_pairs (data gold)).
  assert (Hdp : length dp = (B * L * 11)%nat).
  { unfold dp. apply decode_pairs_length. rewrite Hlp. lia. }
  assert (Hdg : length dg = (L * 11)%nat).
  { unfold dg. apply decode_pairs_length. exact Hlg. }
  assert (Hn : numel [L; 11]%nat = (L * 11)%nat) by (simpl; lia).
  rewrite Hn.
  (* the prediction keeps its elements, the mask is repeated *)
  destruct B as [| b]; [contradiction |].
  unfold expand_to, mask_of. cbn [shape data length lpad Nat.sub repeat app].
  rewrite expand_lead1 by (rewrite length_map, Hdg; simpl; lia).
  rewrite !expand_same
    by (rewrite ?length_map, ?Hdg, ?Hdp; simpl; lia).
  set (mm := map mask01 dg).
  assert (Hmm : length mm = (L * 11)%nat)
    by (unfold mm; rewrite length_map; exact Hdg).
  assert (Hfirst :
    firstn (L * 11) (zip_with Rmult dp (concat (repeat mm (S b))))
    = firstn (L * 11) (masked_angles (data pred1) (data gold))).
  { unfold masked_angles, pred1. cbn [data]. fold dg mm.
    rewrite !firstn_zip_with. f_equal.
    - replace (L * 22)%nat with (L * 11 * 2)%nat by lia.
      rewrite decode_pairs_firstn, firstn_firstn, Nat.min_id. reflexivity.
    - rewrite <- Hmm, firstn_concat_repeat, firstn_all. reflexivity. }
  unfold example_losses.
  cbn [chunks map combine]. rewrite combine_nil, Hfirst.
  unfold masked_angles at 2. fold dg mm.
  reflexivity.
Qed.

(** ** The epoch loops on the batches of an epoch *)

Lemma train_batch_step (device : device) (st st' : train_state)
  (batch_num : nat) (batch : batch_t) :
  train_batch device st batch_num batch = Ok st' ->
  exists loss,
    tr_training_losses st' = tr_training_losses st ++ [loss]
    /\ tr_total_loss st' = tr_total_loss st + loss
    /\ tr_n_batches st' = tr_n_batches st + 1
    /\ length (tr_printed st')
       = (length (tr_printed st)
          + if ((batch_num mod 5 =? 0)
                && (5 <? length (tr_training_losses st ++ [loss])))%nat
            then 1 else 0)%nat.
Proof.
  unfold train_batch. destruct batch as [[[b0 b1] b2] b3].
  destruct (to device b0) as [src_seq |]; [| discriminate]. cbn [bind].
  destruct (to device b1) as [src_pos |]; [| discriminate]. cbn [bind].
  destruct (to device b2) as [tgt_seq |]; [| discriminate]. cbn [bind].
  destruct (to device b3) as [tgt_pos |]; [| discriminate]. cbn [bind].
  destruct (slice_all tgt_seq) as [gold |]; [| discriminate]. cbn [bind].
  destruct (model_call _ _ _ _ _) as [pred |]; [| discriminate]. cbn [bind].
  destruct (cal_loss pred gold device) as [loss |]; [| discriminate].
  cbn [bind]. destruct (optimize _ _ _ _) as [model' optimizer'].
  intros H. injection H as <-. exists loss.
  cbn [tr_training_losses tr_total_loss tr_n_batches tr_printed].
  repeat split.
  cbn.
  match goal with |- context [andb ?a ?b] => destruct (andb a b) end; [| lia].
  rewrite length_app. reflexivity.
Qed.

Lemma train_loop_invariant (device : device) (training_data : list batch_t) :
  forall (st st' : train_state) (batch_num : nat),
    train_loop device st batch_num training_data = Ok st' ->
    length (tr_training_losses st) = batch_num ->
    length (tr_printed st) = ((batch_num - 1) / 5)%nat ->
    exists losses,
      length losses = length training_data
      /\ tr_training_losses st' = tr_training_losses st ++ losses
      /\ tr_total_loss st' = tr_total_loss st + Rsum losses
      /\ tr_n_batches st' = tr_n_batches st + INR (length training_data)
      /\ length (tr_printed st')
         = ((batch_num + length training_data - 1) / 5)%nat.
Proof.
  induction training_data as [| batch rest IH]; intros st st' k Hloop Hk Hpr.
  - injection Hloop as <-. exists []. simpl.
    rewrite app_nil_r, Nat.add_0_r. repeat split; try lra. exact Hpr.
  - cbn [train_loop] in Hloop.
    destruct (train_batch device st k batch) as [st1 |] eqn:Hstep;
      [| discriminate].
    cbn [bind] in Hloop.
    destruct (train_batch_step _ _ _ _ _ Hstep) as (loss & HTL & Htot & Hn & Hp).
    assert (Hk1 : length (tr_training_losses st1) = S k).
    { rewrite HTL, length_app, Hk. simpl. lia. }
    assert (Hpr1 : length (tr_printed st1) = ((S k - 1) / 5)%nat).
    { rewrite Hp, Hpr, length_app, Hk. cbn [length].
      replace (S k - 1)%nat with k by lia.
      destruct (Nat.eqb_spec (k mod 5) 0) as [Hm | Hm];
        destruct (Nat.ltb_spec 5 (k + 1)) as [Hl | Hl]; cbn [andb];
        pose proof (Nat.div_mod_eq k 5);
        pose proof (Nat.div_mod_eq (k - 1) 5);
        pose proof (Nat.mod_upper_bound k 5 ltac:(discriminate));
        pose proof (Nat.mod_upper_bound (k - 1) 5 ltac:(discriminate));
        nia. }
    destruct (IH _ _ _ Hloop Hk1 Hpr1) as (losses & Hlen & HTL' & Htot' & Hn' & Hp').
    exists (loss :: losses). cbn [length Rsum fold_right]. fold (Rsum losses).
    repeat split.
    + rewrite Hlen. reflexivity.
    + rewrite HTL', HTL, <- app_assoc. reflexivity.
    + rewrite Htot', Htot. ring.
    + rewrite Hn', Hn, S_INR. ring.
    + rewrite Hp'. f_equal. lia.
Qed.

(** X10: What [train_epoch] returns when it returns: there was at least one
    batch, one loss was recorded per batch, [n_batches] is the number of
    batches, and the epoch loss is the arithmetic mean of the recorded
    batch losses. *)
Theorem train_epoch_mean_of_batches :
  forall (model : model_t) (training_data : list batch_t)
         (optimizer : optimizer_t) (device : device) (r : R)
         (st : train_state),
    train_epoch model training_data optimizer device = Ok (r, st) ->
    training_data <> []
    /\ length (tr_training_losses st) = length training_data
    /\ tr_n_batches st = INR (length training_data)
    /\ tr_total_loss st = Rsum (tr_training_losses st)
    /\ r = Rsum (tr_training_losses st) / INR (length training_data).
Proof.
  intros model training_data optimizer device r st. unfold train_epoch.
  cbv zeta.
  destruct (train_loop _ _ _ _) as [st1 |] eqn:Hloop; [| discriminate].
  cbn [bind].
  destruct (train_loop_invariant _ _ _ _ _ Hloop eq_refl eq_refl)
    as (losses & Hlen & HTL & Htot & Hn & _).
  cbn [tr_training_losses tr_total_loss tr_n_batches app] in HTL, Htot, Hn.
  unfold py_div. destruct (Req_EM_T (tr_n_batches st1) 0) as [H0 | Hne];
    [discriminate |].
  cbn [bind]. intros [= <- <-].
  rewrite HTL. split; [| split; [| split; [| split]]].
  - intros ->. apply Hne. rewrite Hn. simpl. lra.
  - exact Hlen.
  - rewrite Hn. lra.
  - rewrite Htot. lra.
  - rewrite Htot, Hn, !Rplus_0_l. reflexivity.
Qed.

(** X11: The running average of [train_epoch] is printed at the batches
    numbered 5, 10, 15, ...: after an epoch of [n] batches, [(n - 1) / 5]
    averages have been printed, none during the first five batches. *)
Theorem train_epoch_prints_every_five :
  forall (model : model_t) (training_data : list batch_t)
         (optimizer : optimizer_t) (device : device) (r : R)
         (st : train_state),
    train_epoch model training_data optimizer device = Ok (r, st) ->
    length (tr_printed st) = ((length training_data - 1) / 5)%nat.
Proof.
  intros model training_data optimizer device r st. unfold train_epoch.
  cbv zeta.
  destruct (train_loop _ _ _ _) as [st1 |] eqn:Hloop; [| discriminate].
  cbn [bind].
  destruct (train_loop_invariant _ _ _ _ _ Hloop eq_refl eq_refl)
    as (_ & _ & _ & _ & _ & Hp).
  destruct (py_div _ _); [| discriminate]. cbn [bind].
  intros [= _ <-]. exact Hp.
Qed.

Lemma eval_batch_loss (model : model_t) (device : device) (st : eval_state)
  (batch : batch_t) :
  eval_batch model device st batch
  = (loss <- batch_loss model device batch ;;
     Ok (mkEvalState (ev_total_loss st + loss) (ev_n_batches st + 1))).
Proof.
  unfold eval_batch, batch_loss. destruct batch as [[[b0 b1] b2] b3].
  destruct (to device b0); [| reflexivity]. cbn [bind].
  destruct (to device b1); [| reflexivity]. cbn [bind].
  destruct (to device b2) as [tgt_seq |]; [| reflexivity]. cbn [bind].
  destruct (to device b3); [| reflexivity]. cbn [bind].
  destruct (slice_all tgt_seq); [| reflexivity]. cbn [bind].
  destruct (model_call _ _ _ _ _); reflexivity.
Qed.

Lemma eval_loop_losses (model : model_t) (device : device)
  (validation_data : list batch_t) :
  forall (st st' : eval_state),
    eval_loop model device st validation_data = Ok st'
    <-> exists losses,
          Forall2 (fun batch loss => batch_loss model device batch = Ok loss)
            validation_data losses
          /\ st' = mkEvalState (ev_total_loss st + Rsum losses)
                     (ev_n_batches st + INR (length validation_data)).
Proof.
  induction validation_data as [| batch rest IH]; intros st st'.
  - cbn [eval_loop length]. split.
    + intros [= <-]. exists []. split; [constructor |].
      destruct st as [t n]. simpl. f_equal; lra.
    + intros (losses & Hl & ->). inversion Hl; subst.
      destruct st as [t n]. simpl. do 2 f_equal; lra.
  - cbn [eval_loop]. rewrite eval_batch_loss. split.
    + destruct (batch_loss model device batch) as [loss |] eqn:Hb;
        [| discriminate].
      cbn [bind]. intros Hloop. apply IH in Hloop.
      destruct Hloop as (losses & Hl & ->).
      exists (loss :: losses). split; [constructor; assumption |].
      cbn [ev_total_loss ev_n_batches Rsum fold_right length].
      fold (Rsum losses). rewrite S_INR. f_equal; lra.
    + intros (losses & Hl & ->). inversion Hl as [| ? loss ? losses' Hb Hl']; subst.
      rewrite Hb. cbn [bind]. apply IH. exists losses'.
      split; [exact Hl' |].
      cbn [ev_total_loss ev_n_batches Rsum fold_right length].
      fold (Rsum losses'). rewrite S_INR. f_equal; lra.
Qed.

Lemma Forall2_Permutation {A B : Type} (P : A -> B -> Prop) (l l' : list A) :
  Permutation l l' ->
  forall m, Forall2 P l m ->
  exists m', Permutation m m' /\ Forall2 P l' m'.
Proof.
  induction 1 as [| x l l' _ IH | x y l | l l1 l2 _ IH1 _ IH2]; intros m Hm.
  - inversion Hm; subst. exists []. split; constructor.
  - inversion Hm as [| ? b ? m0 Hx Hl]; subst.
    destruct (IH _ Hl) as (m' & Hp & Hf).
    exists (b :: m'). split; constructor; assumption.
  - inversion Hm as [| ? b ? m0 Hy Hl]; subst.
    inversion Hl as [| ? b' ? m1 Hx Hl']; subst.
    exists (b' :: b :: m1). split; [apply perm_swap |].
    repeat constructor; assumption.
  - destruct (IH1 _ Hm) as (m1 & Hp1 & Hf1).
    destruct (IH2 _ Hf1) as (m2 & Hp2 & Hf2).
    exists m2. split; [eapply perm_trans; eassumption | exact Hf2].
Qed.

Lemma Rsum_Permutation (l l' : list R) : Permutation l l' -> Rsum l = Rsum l'.
Proof.
  induction 1 as [| x l l' _ IH | x y l | l l1 l2 _ IH1 _ IH2];
    unfold Rsum in *; simpl; lra.
Qed.

(** X12: What [eval_epoch] returns when it returns: there was at least one
    batch, every batch has a loss under the model in evaluation mode,
    [total_loss] is the sum of these losses, [n_batches] their number and
    the epoch loss their arithmetic mean. *)
Theorem eval_epoch_mean_of_batches :
  forall (model : model_t) (validation_data : list batch_t)
         (device : device) (r : R) (st : eval_state),
    eval_epoch model validation_data device = Ok (r, st) ->
    validation_data <> []
    /\ exists losses,
         Forall2 (fun batch loss =>
                    batch_loss (model_eval model) device batch = Ok loss)
           validation_data losses
         /\ ev_total_loss st = Rsum losses
         /\ ev_n_batches st = INR (length validation_data)
         /\ r = Rsum losses / INR (length validation_data).
Proof.
  intros model validation_data device r st. unfold eval_epoch. cbv zeta.
  destruct (eval_loop _ _ _ _) as [st1 |] eqn:Hloop; [| discriminate].
  cbn [bind]. apply eval_loop_losses in Hloop.
  destruct Hloop as (losses & Hl & ->).
  cbn [ev_total_loss ev_n_batches]. unfold py_div.
  destruct (Req_EM_T _ 0) as [H0 | Hne]; [discriminate |].
  cbn [bind]. intros [= <- <-]. split.
  - intros ->. apply Hne. simpl. lra.
  - exists losses. cbn [ev_total_loss ev_n_batches].
    rewrite !Rplus_0_l. repeat split. exact Hl.
Qed.

(** X13: The validation loss does not depend on the order of the batches: if
    [eval_epoch] returns on some batches, it returns the same loss and
    the same totals on any reordering of them. *)
Theorem eval_epoch_order_independent :
  forall (model : model_t) (validation_data validation_data' : list batch_t)
         (device : device) (r : R) (st : eval_state),
    Permutation validation_data validation_data' ->
    eval_epoch model validation_data device = Ok (r, st) ->
    eval_epoch model validation_data' device = Ok (r, st).
Proof.
  intros model data data' device r st Hperm. unfold eval_epoch. cbv zeta.
  destruct (eval_loop _ _ _ data) as [st1 |] eqn:Hloop; [| discriminate].
  cbn [bind]. apply eval_loop_losses in Hloop.
  destruct Hloop as (losses & Hl & ->).
  destruct (Forall2_Permutation _ _ _ Hperm _ Hl) as (losses' & Hp & Hl').
  assert (Hloop' :
    eval_loop (model_eval model) device (mkEvalState 0 0) data'
    = Ok (mkEvalState (0 + Rsum losses) (0 + INR (length data)))).
  { apply eval_loop_losses. exists losses'. split; [exact Hl' |].
    cbn [ev_total_loss ev_n_batches].
    rewrite (Rsum_Permutation _ _ Hp), (Permutation_length Hperm).
    reflexivity. }
  rewrite Hloop'. cbn [bind]. intros H. exact H.
Qed.

(** ** The training run *)

Lemma Rltb_true (x y : R) : Rltb x y = true <-> x < y.
Proof.
  unfold Rltb. destruct (Rlt_dec x y); split; intros H;
    try discriminate; try reflexivity; try assumption; contradiction.
Qed.

Lemma Rleb_true (x y : R) : Rleb x y = true <-> x <= y.
Proof.
  unfold Rleb. destruct (Rle_dec x y); split; intros H;
    try discriminate; try reflexivity; try assumption; contradiction.
Qed.

Section TrainRun.

Variables training_data validation_data : nat -> list batch_t.
Variable device : device.
Variable opt : options.
Variables log_train_file log_valid_file : option string.

Let body := train_epoch_i training_data validation_data device opt
              log_train_file log_valid_file.
Let loop := train_epochs training_data validation_data device opt
              log_train_file log_valid_file.

(** An iteration that reaches its end. *)
Lemma train_epoch_i_next (v v' : train_vars) (n : nat) :
  body v n = Next v' ->
  exists train_loss st valid_loss est saved,
    train_epoch (tv_model v) (training_data n) (tv_optimizer v) device
    = Ok (train_loss, st)
    /\ eval_epoch (tr_model st) (validation_data n) device
       = Ok (valid_loss, est)
    /\ save_checkpoint opt
         (mkCheckpoint (state_dict (model_eval (tr_model st))) opt
            (Z.of_nat n))
         valid_loss (tv_valid_losses v ++ [valid_loss])
       = Some saved
    /\ tv_valid_losses v' = tv_valid_losses v ++ [valid_loss]
    /\ tv_events v'
       = tv_events v
         ++ [Print_epoch (Z.of_nat n); Print_training_loss train_loss;
             Print_validation_loss valid_loss]
         ++ saved
         ++ log_epoch log_train_file log_valid_file (Z.of_nat n)
              train_loss valid_loss
    /\ ((int_truthy (opt_step_when opt) = true
         /\ valid_loss < tv_best_valid_loss_so_far v
         /\ tv_best_valid_loss_so_far v' = valid_loss
         /\ tv_epoch_last_improved v' = Z.of_nat n)
        \/ ((int_truthy (opt_step_when opt) = false
             \/ tv_best_valid_loss_so_far v <= valid_loss)
            /\ tv_best_valid_loss_so_far v' = tv_best_valid_loss_so_far v
            /\ tv_epoch_last_improved v' = tv_epoch_last_improved v)).
Proof.
  unfold body, train_epoch_i.
  destruct (train_epoch _ _ _ _) as [[train_loss st] |] eqn:Htrain;
    [| discriminate].
  destruct (eval_epoch _ _ _) as [[valid_loss est] |] eqn:Heval;
    [| discriminate].
  cbv zeta.
  destruct (int_truthy (opt_step_when opt)) eqn:Hsw; cbn [andb].
  - destruct (Rltb valid_loss (tv_best_valid_loss_so_far v)) eqn:Hlt.
    + destruct (save_checkpoint _ _ _ _) as [saved |] eqn:Hsave;
        [| discriminate].
      intros [= <-]. exists train_loss, st, valid_loss, est, saved.
      cbn [tv_valid_losses tv_events tv_best_valid_loss_so_far
           tv_epoch_last_improved].
      repeat split; try assumption.
      * rewrite <- !app_assoc. reflexivity.
      * left. apply Rltb_true in Hlt. repeat split. exact Hlt.
    + destruct (match opt_step_when opt with Some _ => _ | None => _ end);
        [discriminate |].
      destruct (save_checkpoint _ _ _ _) as [saved |] eqn:Hsave;
        [| discriminate].
      intros [= <-]. exists train_loss, st, valid_loss, est, saved.
      cbn [tv_valid_losses tv_events tv_best_valid_loss_so_far
           tv_epoch_last_improved].
      repeat split; try assumption.
      * rewrite <- !app_assoc. reflexivity.
      * right. repeat split. right.
        destruct (Rle_lt_dec (tv_best_valid_loss_so_far v) valid_loss)
          as [H | H]; [exact H |].
        apply Rltb_true in H. congruence.
  - destruct (save_checkpoint _ _ _ _) as [saved |] eqn:Hsave;
      [| discriminate].
    intros [= <-]. exists train_loss, st, valid_loss, est, saved.
    cbn [tv_valid_losses tv_events tv_best_valid_loss_so_far
         tv_epoch_last_improved].
    repeat split; try assumption.
    + rewrite <- !app_assoc. reflexivity.
    + right. repeat split. left. reflexivity.
Qed.

(** An iteration that leaves the loop through [break]. *)
Lemma train_epoch_i_break (v v' : train_vars) (n : nat) :
  body v n = Break v' ->
  exists train_loss valid_loss step_when,
    opt_step_when opt = Some step_when
    /\ step_when <> 0%Z
    /\ tv_best_valid_loss_so_far v <= valid_loss
    /\ (Z.of_nat n - tv_epoch_last_improved v > step_when)%Z
    /\ tv_valid_losses v' = tv_valid_losses v ++ [valid_loss]
    /\ tv_best_valid_loss_so_far v' = tv_best_valid_loss_so_far v
    /\ tv_epoch_last_improved v' = tv_epoch_last_improved v
    /\ tv_events v'
       = tv_events v
         ++ [Print_epoch (Z.of_nat n); Print_training_loss train_loss;
             Print_validation_loss valid_loss; Print_stopping_early].
Proof.
  unfold body, train_epoch_i.
  destruct (train_epoch _ _ _ _) as [[train_loss st] |]; [| discriminate].
  destruct (eval_epoch _ _ _) as [[valid_loss est] |]; [| discriminate].
  cbv zeta.
  destruct (opt_step_when opt) as [step_when |] eqn:Hopt; cbn [int_truthy andb].
  2:{ destruct (save_checkpoint _ _ _ _); discriminate. }
  destruct (Z.eqb_spec step_when 0) as [H0 | H0]; cbn [negb andb].
  { destruct (save_checkpoint _ _ _ _); discriminate. }
  destruct (Rltb valid_loss (tv_best_valid_loss_so_far v)) eqn:Hlt.
  { destruct (save_checkpoint _ _ _ _); discriminate. }
  destruct (Z.gtb_spec (Z.of_nat n - tv_epoch_last_improved v) step_when)
    as [Hgt | Hgt].
  2:{ destruct (save_checkpoint _ _ _ _); discriminate. }
  intros [= <-]. exists train_loss, valid_loss, step_when.
  cbn [tv_valid_losses tv_events tv_best_valid_loss_so_far
       tv_epoch_last_improved].
  repeat split; try assumption.
  - destruct (Rle_lt_dec (tv_best_valid_loss_so_far v) valid_loss)
      as [H | H]; [exact H |].
    apply Rltb_true in H. congruence.
  - lia.
  - rewrite <- !app_assoc. reflexivity.
Qed.

(** Invariants of the loop over the epochs: what holds of the variables
    before the first epoch and is kept by every epoch that reaches its
    end holds after the loop; what an epoch that breaks establishes holds
    when the loop is left early. *)
Lemma train_epochs_invariant (P Q : train_vars -> Prop) :
  (forall v v',
      P v -> body v (length (tv_valid_losses v)) = Next v' -> P v') ->
  (forall v v',
      P v -> body v (length (tv_valid_losses v)) = Break v' -> Q v') ->
  forall (m : nat) (v : train_vars),
    P v ->
    match loop (seq (length (tv_valid_losses v)) m) v with
    | Next v' =>
        P v' /\ length (tv_valid_losses v')
                = (length (tv_valid_losses v) + m)%nat
    | Break v' => Q v'
    | Raised _ _ => True
    end.
Proof.
  intros HP HQ. induction m as [| m IH]; intros v Hv.
  - cbn. split; [exact Hv | lia].
  - cbn [seq]. unfold loop. cbn [train_epochs]. fold body.
    destruct (body v (length (tv_valid_losses v))) as [v1 | v1 | ev e] eqn:Hb.
    + pose proof (HP _ _ Hv Hb) as Hv1.
      destruct (train_epoch_i_next _ _ _ Hb)
        as (tl & st & vl & est & saved & _ & _ & _ & Hlosses & _).
      assert (Hlen : length (tv_valid_losses v1)
                     = S (length (tv_valid_losses v))).
      { rewrite Hlosses, length_app. simpl. lia. }
      specialize (IH v1 Hv1). rewrite Hlen in IH. fold loop.
      destruct (loop _ v1) as [v2 | v2 | ev e]; try exact IH.
      destruct IH as [IH1 IH2]. split; [exact IH1 | lia].
    + apply (HQ _ _ Hv Hb).
    + exact I.
Qed.

End TrainRun.

Lemma train_epoch_nil (model : model_t) (optimizer : optimizer_t)
  (device : device) :
  train_epoch model [] optimizer device = Raise ZeroDivisionError.
Proof.
  unfold train_epoch. cbn [train_loop bind tr_total_loss tr_n_batches].
  unfold py_div. destruct (Req_EM_T 0 0) as [_ | H]; [reflexivity |].
  exfalso. apply H. reflexivity.
Qed.

(** X14: [train] with a training loader that yields no batch: as soon as there
    is an epoch to run, the division by zero of [train_epoch] ends the
    run in its first epoch, before any checkpoint is saved or any line is
    appended to a log. *)
Theorem train_fails_without_batches :
  forall (model : model_t) (training_data validation_data : nat -> list batch_t)
         (optimizer : optimizer_t) (device : device) (opt : options),
    training_data 0%nat = [] ->
    (0 < opt_epoch opt)%Z ->
    exists events,
      train model training_data validation_data optimizer device opt
      = Raised events (Epoch_error ZeroDivisionError)
      /\ forallb (fun ev => negb (writes_results ev)) events = true.
Proof.
  intros model td vd optimizer device opt Hnil Hepoch. unfold train.
  destruct (Z.to_nat (opt_epoch opt)) as [| m] eqn:Hm; [lia |].
  cbn [seq].
  destruct (opt_log opt) as [log |];
    [destruct (negb (String.eqb log EmptyString)) |];
    cbv zeta; cbn [train_epochs]; unfold train_epoch_i;
    cbn [tv_model tv_optimizer tv_events]; rewrite Hnil, train_epoch_nil;
    eexists; (split; [reflexivity | reflexivity]).
Qed.

Lemma nth_app_last (l : list R) (x : R) (j : nat) :
  (j < length l + 1)%nat ->
  ((j < length l)%nat /\ nth j (l ++ [x]) 0 = nth j l 0)
  \/ (j = length l /\ nth j (l ++ [x]) 0 = x).
Proof.
  intros Hj. destruct (Nat.lt_ge_cases j (length l)) as [H | H].
  - left. split; [exact H | apply app_nth1; exact H].
  - right. assert (j = length l) by lia. subst j.
    split; [reflexivity | apply nth_middle].
Qed.

Lemma best_recorded_extend (v v' : train_vars) (valid_loss : R) :
  tv_valid_losses v' = tv_valid_losses v ++ [valid_loss] ->
  tv_best_valid_loss_so_far v' = tv_best_valid_loss_so_far v ->
  tv_epoch_last_improved v' = tv_epoch_last_improved v ->
  tv_best_valid_loss_so_far v <= valid_loss ->
  (tv_epoch_last_improved v < Z.of_nat (length (tv_valid_losses v)))%Z ->
  best_recorded v -> best_recorded v'.
Proof.
  intros Hl Hb Hi Hle Hlast [Hall Hbest]. unfold best_recorded.
  rewrite Hl, Hb, Hi, length_app. cbn [length]. split.
  - intros j Hj.
    destruct (nth_app_last (tv_valid_losses v) valid_loss j Hj)
      as [[Hj1 ->] | [_ ->]]; [apply Hall; exact Hj1 | exact Hle].
  - destruct Hbest as [H0 | [H0 H1]]; [left; exact H0 |].
    right. split; [exact H0 |]. rewrite app_nth1 by lia. exact H1.
Qed.

Lemma best_recorded_improve (v v' : train_vars) (valid_loss : R) :
  tv_valid_losses v' = tv_valid_losses v ++ [valid_loss] ->
  tv_best_valid_loss_so_far v' = valid_loss ->
  tv_epoch_last_improved v' = Z.of_nat (length (tv_valid_losses v)) ->
  valid_loss < tv_best_valid_loss_so_far v ->
  best_recorded v -> best_recorded v'.
Proof.
  intros Hl Hb Hi Hlt [Hall _]. unfold best_recorded.
  rewrite Hl, Hb, Hi, length_app. cbn [length]. split.
  - intros j Hj.
    destruct (nth_app_last (tv_valid_losses v) valid_loss j Hj)
      as [[Hj1 ->] | [_ ->]]; [specialize (Hall j Hj1); lra | lra].
  - right. split; [lia |]. rewrite Nat2Z.id. apply nth_middle.
Qed.

(** X15: Early stopping: [train] leaves its loop through [break] only under a
    non-zero [step_when], and then more than [step_when] epochs have
    passed since the epoch recorded as the last improvement, no epoch had
    a validation loss below the recorded best, and that best is the loss
    of the recorded epoch, or the initial 10000 when no epoch improved. *)
Theorem train_early_stopping :
  forall (model : model_t) (training_data validation_data : nat -> list batch_t)
         (optimizer : optimizer_t) (device : device) (opt : options)
         (v : train_vars),
    train model training_data validation_data optimizer device opt = Break v ->
    exists step_when,
      opt_step_when opt = Some step_when
      /\ step_when <> 0%Z
      /\ (Z.of_nat (length (tv_valid_losses v)) - 1
          - tv_epoch_last_improved v > step_when)%Z
      /\ best_recorded v.
Proof.
  intros model td vd optimizer device opt v.
  set (inv := fun v : train_vars =>
    int_truthy (opt_step_when opt) = true ->
    best_recorded v
    /\ (tv_epoch_last_improved v < Z.of_nat (length (tv_valid_losses v)))%Z).
  set (goal := fun v : train_vars =>
    exists step_when,
      opt_step_when opt = Some step_when
      /\ step_when <> 0%Z
      /\ (Z.of_nat (length (tv_valid_losses v)) - 1
          - tv_epoch_last_improved v > step_when)%Z
      /\ best_recorded v).
  assert (Hnext : forall ltf lvf v0 v1,
    inv v0 ->
    train_epoch_i td vd device opt ltf lvf v0 (length (tv_valid_losses v0))
    = Next v1 ->
    inv v1).
  { intros ltf lvf v0 v1 Hv0 Hb Hsw. destruct (Hv0 Hsw) as [Hrec Hlast].
    destruct (train_epoch_i_next _ _ _ _ _ _ _ _ _ Hb)
      as (tl & st & vl & est & saved & _ & _ & _ & Hl & _ & Hcase).
    destruct Hcase as [(_ & Hlt & Hb' & Hl') | ([Hf | Hle] & Hb' & Hl')].
    - split; [eapply best_recorded_improve; eassumption |].
      rewrite Hl', Hl, length_app. cbn [length]. lia.
    - congruence.
    - split; [eapply best_recorded_extend; eassumption |].
      rewrite Hl', Hl, length_app. cbn [length]. lia. }
  assert (Hbreak : forall ltf lvf v0 v1,
    inv v0 ->
    train_epoch_i td vd device opt ltf lvf v0 (length (tv_valid_losses v0))
    = Break v1 ->
    goal v1).
  { intros ltf lvf v0 v1 Hv0 Hb.
    destruct (train_epoch_i_break _ _ _ _ _ _ _ _ _ Hb)
      as (tl & vl & sw & Hopt & Hsw0 & Hle & Hgt & Hl & Hb' & Hl' & _).
    assert (Hsw : int_truthy (opt_step_when opt) = true).
    { rewrite Hopt. cbn. destruct (Z.eqb_spec sw 0);
        [contradiction | reflexivity]. }
    destruct (Hv0 Hsw) as [Hrec Hlast].
    exists sw. split; [exact Hopt |]. split; [exact Hsw0 |]. split.
    - rewrite Hl, Hl', length_app. cbn [length]. lia.
    - eapply best_recorded_extend; eassumption. }
  assert (Hrun : forall ltf lvf events,
    match train_epochs td vd device opt ltf lvf
            (seq 0 (Z.to_nat (opt_epoch opt)))
            (mkTrainVars model optimizer [] (-1)%Z 10000 events) with
    | Break v' => goal v'
    | _ => True
    end).
  { intros ltf lvf events.
    pose proof (train_epochs_invariant td vd device opt ltf lvf inv goal
                  (Hnext ltf lvf) (Hbreak ltf lvf)
                  (Z.to_nat (opt_epoch opt))
                  (mkTrainVars model optimizer [] (-1)%Z 10000 events))
      as Hinv.
    cbn [tv_valid_losses length] in Hinv.
    destruct (train_epochs _ _ _ _ _ _ _ _); try exact I.
    apply Hinv. intros _. split; [| cbn; lia].
    split; [intros j Hj; cbn in Hj; lia |]. left. split; reflexivity. }
  unfold train.
  destruct (opt_log opt) as [log |];
    [destruct (negb (String.eqb log EmptyString)) |];
    cbv zeta; intros Hb;
    match type of Hb with
    | train_epochs _ _ _ _ ?ltf ?lvf _ (mkTrainVars _ _ _ _ _ ?ev) = _ =>
        pose proof (Hrun ltf lvf ev) as H; rewrite Hb in H; exact H
    end.
Qed.

Lemma fold_left_Rmin_le (xs : list R) :
  forall a, fold_left Rmin xs a <= a
            /\ Forall (fun x => fold_left Rmin xs a <= x) xs.
Proof.
  induction xs as [| x xs IH]; intros a; cbn [fold_left].
  - split; [lra | constructor].
  - destruct (IH (Rmin a x)) as [H1 H2].
    pose proof (Rmin_l a x). pose proof (Rmin_r a x).
    split; [lra |]. constructor; [lra | exact H2].
Qed.

Lemma fold_left_Rmin_in (xs : list R) :
  forall a, In (fold_left Rmin xs a) (a :: xs).
Proof.
  induction xs as [| x xs IH]; intros a; cbn [fold_left].
  - left. reflexivity.
  - destruct (IH (Rmin a x)) as [H | H].
    + unfold Rmin in H at 1. destruct (Rle_dec a x).
      * left. exact H.
      * right. left. exact H.
    + right. right. exact H.
Qed.

Lemma py_min_spec (l : list R) (x : R) :
  exists m,
    py_min (l ++ [x]) = Some m
    /\ In m (l ++ [x])
    /\ forall y, In y (l ++ [x]) -> m <= y.
Proof.
  destruct (l ++ [x]) as [| a xs] eqn:Hl.
  - destruct l; discriminate.
  - exists (fold_left Rmin xs a). split; [reflexivity |].
    split; [apply fold_left_Rmin_in |].
    destruct (fold_left_Rmin_le xs a) as [Ha Hxs].
    intros y [<- | Hy]; [exact Ha |].
    rewrite Forall_forall in Hxs. apply Hxs. exact Hy.
Qed.

(** The checkpoint block in the mode that keeps the best model. *)
Lemma save_checkpoint_best (opt : options) (file : string)
  (checkpoint : checkpoint_t) (valid_loss : R) (losses : list R)
  (saved : list event) :
  opt_save_model opt = Some file -> file <> EmptyString ->
  opt_save_mode opt = "best"%string ->
  save_checkpoint opt checkpoint valid_loss (losses ++ [valid_loss])
  = Some saved ->
  (saved = [Torch_save checkpoint (String.append file ".chkpt");
            Print_checkpoint_updated]
   /\ forall y, In y losses -> valid_loss <= y)
  \/ (saved = [] /\ exists y, In y losses /\ y < valid_loss).
Proof.
  intros Hfile Hne Hmode. unfold save_checkpoint. rewrite Hfile, Hmode.
  destruct (String.eqb_spec file EmptyString) as [H | _]; [contradiction |].
  cbn [negb]. cbn [String.eqb Ascii.eqb Bool.eqb andb].
  destruct (py_min_spec losses valid_loss) as (m & -> & Hin & Hmin).
  destruct (Rleb valid_loss m) eqn:Hle; intros [= <-].
  - left. split; [reflexivity |]. intros y Hy.
    apply Rleb_true in Hle. specialize (Hmin y (in_or_app _ _ _ (or_introl Hy))).
    lra.
  - right. split; [reflexivity |].
    assert (Hlt : m < valid_loss).
    { destruct (Rle_lt_dec valid_loss m) as [H | H]; [| exact H].
      apply Rleb_true in H. congruence. }
    apply in_app_or in Hin. destruct Hin as [Hin | [<- | []]]; [| lra].
    exists m. split; assumption.
Qed.

Lemma saved_epochs_app (l1 l2 : list event) :
  saved_epochs (l1 ++ l2) = saved_epochs l1 ++ saved_epochs l2.
Proof. apply flat_map_app. Qed.

Lemma saved_epochs_log (ltf lvf : option string) (epoch_i : Z)
  (train_loss valid_loss : R) :
  saved_epochs (log_epoch ltf lvf epoch_i train_loss valid_loss) = []
  /\ forall checkpoint model_name,
       ~ In (Torch_save checkpoint model_name)
           (log_epoch ltf lvf epoch_i train_loss valid_loss).
Proof.
  unfold log_epoch. destruct ltf as [f1 |], lvf as [f2 |];
    try (split; [reflexivity | intros ? ? []]).
  destruct (_ && _)%bool; split; try reflexivity; intros ck name H;
    cbn in H; intuition discriminate.
Qed.

(** X16: In the mode that keeps the best model, validation losses being
    real numbers (none is a not-a-number), all checkpoints go to one
    file, and after a run, stopped early or not, the checkpoint saved
    last is that of an epoch whose validation loss is the least among
    the epochs that ran to their end. *)
Theorem train_best_checkpoint :
  forall (model : model_t) (training_data validation_data : nat -> list batch_t)
         (optimizer : optimizer_t) (device : device) (opt : options)
         (save_model : string),
    opt_save_model opt = Some save_model ->
    save_model <> EmptyString ->
    opt_save_mode opt = "best"%string ->
    match train model training_data validation_data optimizer device opt with
    | Next v =>
        best_checkpoint_kept (String.append save_model ".chkpt") v
          (length (tv_valid_losses v))
    | Break v =>
        best_checkpoint_kept (String.append save_model ".chkpt") v
          (length (tv_valid_losses v) - 1)
    | Raised _ _ => True
    end.
Proof.
  intros model td vd optimizer device opt save_model Hfile Hne Hmode.
  set (file := String.append save_model ".chkpt").
  set (inv := fun v : train_vars =>
                best_checkpoint_kept file v (length (tv_valid_losses v))).
  set (goal := fun v : train_vars =>
                 best_checkpoint_kept file v (length (tv_valid_losses v) - 1)).
  assert (Hnext : forall ltf lvf v0 v1,
    inv v0 ->
    train_epoch_i td vd device opt ltf lvf v0 (length (tv_valid_losses v0))
    = Next v1 ->
    inv v1).
  { intros ltf lvf v0 v1 [Hnames Hlast] Hb.
    destruct (train_epoch_i_next _ _ _ _ _ _ _ _ _ Hb)
      as (tl & st & vl & est & saved & _ & _ & Hsave & Hl & Hev & _).
    destruct (saved_epochs_log ltf lvf
                (Z.of_nat (length (tv_valid_losses v0))) tl vl)
      as [Hlog1 Hlog2].
    set (n := length (tv_valid_losses v0)) in *.
    unfold inv, best_checkpoint_kept.
    rewrite Hev, Hl, length_app, !saved_epochs_app, Hlog1, app_nil_r.
    cbn [length]. fold n.
    change (saved_epochs [Print_epoch (Z.of_nat n); Print_training_loss tl;
                          Print_validation_loss vl]) with (@nil Z).
    cbn [app].
    destruct (save_checkpoint_best _ _ _ _ _ _ Hfile Hne Hmode Hsave)
      as [[-> Hmin] | [-> (y & Hy & Hlt)]].
    - split.
      + intros ck name Hin.
        apply in_app_or in Hin. destruct Hin as [Hin | Hin];
          [apply (Hnames _ _ Hin) |].
        cbn in Hin.
        destruct Hin as [H | [H | [H | [H | [H | Hin]]]]];
          try discriminate H.
        * injection H as _ <-. reflexivity.
        * exfalso. apply (Hlog2 _ _ Hin).
      + right. exists n. cbn [saved_epochs flat_map ck_epoch app].
        rewrite last_last. split; [reflexivity |]. split; [lia |].
        intros j Hj. unfold n at 1. rewrite nth_middle.
        destruct (nth_app_last (tv_valid_losses v0) vl j Hj)
          as [[Hj1 ->] | [_ ->]]; [| lra].
        apply Hmin. apply nth_In. exact Hj1.
    - split.
      + intros ck name Hin.
        apply in_app_or in Hin. destruct Hin as [Hin | Hin];
          [apply (Hnames _ _ Hin) |].
        cbn in Hin.
        destruct Hin as [H | [H | [H | Hin]]]; try discriminate H.
        exfalso. apply (Hlog2 _ _ Hin).
      + cbn [saved_epochs flat_map app]. rewrite app_nil_r.
        destruct Hlast as [[Hn0 _] | (e & He & Hlt_e & Hmin)].
        * exfalso. destruct (tv_valid_losses v0); [destruct Hy | discriminate].
        * right. exists e. split; [exact He |]. split; [lia |].
          intros j Hj. rewrite (app_nth1 _ _ _ Hlt_e).
          destruct (nth_app_last (tv_valid_losses v0) vl j Hj)
            as [[Hj1 ->] | [_ ->]]; [apply Hmin; exact Hj1 |].
          destruct (In_nth _ _ 0 Hy) as (j0 & Hj0 & <-).
          specialize (Hmin j0 Hj0). lra. }
  assert (Hbreak : forall ltf lvf v0 v1,
    inv v0 ->
    train_epoch_i td vd device opt ltf lvf v0 (length (tv_valid_losses v0))
    = Break v1 ->
    goal v1).
  { intros ltf lvf v0 v1 [Hnames Hlast] Hb.
    destruct (train_epoch_i_break _ _ _ _ _ _ _ _ _ Hb)
      as (tl & vl & sw & _ & _ & _ & _ & Hl & _ & _ & Hev).
    unfold goal, best_checkpoint_kept.
    rewrite Hev, Hl, length_app, saved_epochs_app. cbn [length].
    replace (length (tv_valid_losses v0) + 1 - 1)%nat
      with (length (tv_valid_losses v0)) by lia.
    change (saved_epochs [Print_epoch _; Print_training_loss tl;
                          Print_validation_loss vl; Print_stopping_early])
      with (@nil Z).
    rewrite app_nil_r. split.
    - intros ck name Hin.
      apply in_app_or in Hin. destruct Hin as [Hin | Hin];
        [apply (Hnames _ _ Hin) |].
      cbn in Hin. intuition discriminate.
    - destruct Hlast as [H0 | (e & He & Hlt_e & Hmin)]; [left; exact H0 |].
      right. exists e. split; [exact He |]. split; [exact Hlt_e |].
      intros j Hj. rewrite !app_nth1 by lia. apply Hmin. exact Hj. }
  assert (Hrun : forall ltf lvf events,
    saved_epochs events = [] ->
    (forall ck name, ~ In (Torch_save ck name) events) ->
    match train_epochs td vd device opt ltf lvf
            (seq 0 (Z.to_nat (opt_epoch opt)))
            (mkTrainVars model optimizer [] (-1)%Z 10000 events) with
    | Next v' => inv v'
    | Break v' => goal v'
    | Raised _ _ => True
    end).
  { intros ltf lvf events Hs Hn.
    pose proof (train_epochs_invariant td vd device opt ltf lvf inv goal
                  (Hnext ltf lvf) (Hbreak ltf lvf)
                  (Z.to_nat (opt_epoch opt))
                  (mkTrainVars model optimizer [] (-1)%Z 10000 events))
      as Hinv.
    cbn [tv_valid_losses length] in Hinv.
    destruct (train_epochs _ _ _ _ _ _ _ _); try exact I.
    - apply Hinv. split.
      + intros ck name Hin. exfalso. apply (Hn _ _ Hin).
      + left. split; [reflexivity | exact Hs].
    - apply Hinv. split.
      + intros ck name Hin. exfalso. apply (Hn _ _ Hin).
      + left. split; [reflexivity | exact Hs]. }
  unfold train.
  destruct (opt_log opt) as [log |];
    [destruct (negb (String.eqb log EmptyString)) |];
    cbv zeta; apply Hrun; try reflexivity;
    intros ck name Hin; cbn in Hin; intuition discriminate.
Qed.

Lemma appended_lines_app (l1 l2 : list event) :
  appended_lines (l1 ++ l2) = appended_lines l1 ++ appended_lines l2.
Proof. apply flat_map_app. Qed.

Lemma save_checkpoint_events (opt : options) (checkpoint : checkpoint_t)
  (valid_loss : R) (valid_losses : list R) (saved : list event) :
  save_checkpoint opt checkpoint valid_loss valid_losses = Some saved ->
  appended_lines saved = []
  /\ forall file text, ~ In (Write_file file text) saved.
Proof.
  unfold save_checkpoint.
  destruct (opt_save_model opt) as [name |]; [| intros [= <-]; split;
    [reflexivity | intros ? ? []]].
  destruct (negb _); [| intros [= <-]; split; [reflexivity | intros ? ? []]].
  destruct (String.eqb (opt_save_mode opt) "all").
  - intros [= <-]. split; [reflexivity |]. intros f t H. cbn in H.
    intuition discriminate.
  - destruct (String.eqb (opt_save_mode opt) "best");
      [| intros [= <-]; split; [reflexivity | intros ? ? []]].
    destruct (py_min valid_losses); [| discriminate].
    destruct (Rleb valid_loss r); intros [= <-];
      (split; [reflexivity |]); intros f t H; cbn in H;
      intuition discriminate.
Qed.

Lemma epoch_lines_S (ltf lvf : string) (n : nat) :
  epoch_lines ltf lvf (S n)
  = epoch_lines ltf lvf n ++ [(ltf, Z.of_nat n); (lvf, Z.of_nat n)].
Proof.
  unfold epoch_lines. rewrite seq_S, flat_map_app. cbn [flat_map Nat.add].
  rewrite app_nil_r. reflexivity.
Qed.

Lemma append_nonempty (s t : string) :
  s <> EmptyString -> String.eqb (String.append s t) EmptyString = false.
Proof. destruct s; [contradiction | reflexivity]. Qed.

(** X17: The log files of a run that is given a log name: both files get their
    header once, at the start, and every epoch that runs to its end
    appends one line to the training log and then one to the validation
    log; an epoch that stops the run early appends nothing.  A run that
    is not stopped goes through [opt.epoch] epochs. *)
Theorem train_log_lines :
  forall (model : model_t) (training_data validation_data : nat -> list batch_t)
         (optimizer : optimizer_t) (device : device) (opt : options)
         (log : string),
    opt_log opt = Some log ->
    log <> EmptyString ->
    let log_train_file := String.append log ".train.log" in
    let log_valid_file := String.append log ".valid.log" in
    match train model training_data validation_data optimizer device opt with
    | Next v =>
        length (tv_valid_losses v) = Z.to_nat (opt_epoch opt)
        /\ log_kept log_train_file log_valid_file v
             (length (tv_valid_losses v))
    | Break v =>
        log_kept log_train_file log_valid_file v
          (length (tv_valid_losses v) - 1)
    | Raised _ _ => True
    end.
Proof.
  intros model td vd optimizer device opt log Hlog Hne ltf lvf.
  set (inv := fun v : train_vars =>
                log_kept ltf lvf v (length (tv_valid_losses v))).
  set (goal := fun v : train_vars =>
                 log_kept ltf lvf v (length (tv_valid_losses v) - 1)).
  assert (Hnext : forall v0 v1,
    inv v0 ->
    train_epoch_i td vd device opt (Some ltf) (Some lvf) v0
      (length (tv_valid_losses v0))
    = Next v1 ->
    inv v1).
  { intros v0 v1 [(rest & Hrest & Hw) Hlines] Hb.
    destruct (train_epoch_i_next _ _ _ _ _ _ _ _ _ Hb)
      as (tl & st & vl & est & saved & _ & _ & Hsave & Hl & Hev & _).
    destruct (save_checkpoint_events _ _ _ _ _ Hsave) as [Hs1 Hs2].
    set (n := length (tv_valid_losses v0)) in *.
    assert (Hlog_epoch :
      log_epoch (Some ltf) (Some lvf) (Z.of_nat n) tl vl
      = [Append_file ltf (Z.of_nat n) tl; Append_file lvf (Z.of_nat n) vl]).
    { unfold log_epoch, ltf, lvf. rewrite !append_nonempty by exact Hne.
      reflexivity. }
    unfold inv, log_kept. rewrite Hev, Hl, length_app, Hlog_epoch.
    cbn [length]. fold n. split.
    - exists (rest ++ [Print_epoch (Z.of_nat n); Print_training_loss tl;
                       Print_validation_loss vl]
              ++ saved
              ++ [Append_file ltf (Z.of_nat n) tl;
                  Append_file lvf (Z.of_nat n) vl]).
      split; [rewrite Hrest, <- app_assoc; reflexivity |].
      intros f t Hin.
      apply in_app_or in Hin. destruct Hin as [Hin | Hin];
        [apply (Hw _ _ Hin) |].
      apply in_app_or in Hin. destruct Hin as [Hin | Hin];
        [cbn in Hin; intuition discriminate |].
      apply in_app_or in Hin. destruct Hin as [Hin | Hin];
        [apply (Hs2 _ _ Hin) | cbn in Hin; intuition discriminate].
    - rewrite !appended_lines_app, Hlines, Hs1.
      replace (n + 1)%nat with (S n) by lia. rewrite epoch_lines_S.
      reflexivity. }
  assert (Hbreak : forall v0 v1,
    inv v0 ->
    train_epoch_i td vd device opt (Some ltf) (Some lvf) v0
      (length (tv_valid_losses v0))
    = Break v1 ->
    goal v1).
  { intros v0 v1 [(rest & Hrest & Hw) Hlines] Hb.
    destruct (train_epoch_i_break _ _ _ _ _ _ _ _ _ Hb)
      as (tl & vl & sw & _ & _ & _ & _ & Hl & _ & _ & Hev).
    unfold goal, log_kept. rewrite Hev, Hl, length_app. cbn [length].
    replace (length (tv_valid_losses v0) + 1 - 1)%nat
      with (length (tv_valid_losses v0)) by lia.
    split.
    - eexists. split; [rewrite Hrest, <- app_assoc; reflexivity |].
      intros f t Hin.
      apply in_app_or in Hin. destruct Hin as [Hin | Hin];
        [apply (Hw _ _ Hin) | cbn in Hin; intuition discriminate].
    - rewrite appended_lines_app, Hlines. cbn. apply app_nil_r. }
  pose proof (train_epochs_invariant td vd device opt (Some ltf) (Some lvf)
                inv goal Hnext Hbreak (Z.to_nat (opt_epoch opt))
                (mkTrainVars model optimizer [] (-1)%Z 10000
                   (log_headers ltf lvf)))
    as Hinv.
  cbn [tv_valid_losses length] in Hinv.
  unfold train. rewrite Hlog.
  destruct (String.eqb_spec log EmptyString) as [H | _]; [contradiction |].
  cbn [negb]. cbv zeta. fold ltf lvf. fold (log_headers ltf lvf).
  assert (Hinit : inv (mkTrainVars model optimizer [] (-1)%Z 10000
                         (log_headers ltf lvf))).
  { split; [| reflexivity]. exists []. split; [symmetry; apply app_nil_r |].
    intros f t []. }
  specialize (Hinv Hinit).
  destruct (train_epochs _ _ _ _ _ _ _ _); try exact I.
  - destruct Hinv as [Hv Hlen]. split; [exact Hlen | exact Hv].
  - exact Hinv.
Qed.

Lemma saved_files_app (l1 l2 : list event) :
  saved_files (l1 ++ l2) = saved_files l1 ++ saved_files l2.
Proof. apply flat_map_app. Qed.

Lemma saved_files_log (ltf lvf : option string) (epoch_i : Z)
  (train_loss valid_loss : R) :
  saved_files (log_epoch ltf lvf epoch_i train_loss valid_loss) = [].
Proof.
  unfold log_epoch. destruct ltf, lvf; try reflexivity.
  destruct (_ && _)%bool; reflexivity.
Qed.

Lemma checkpoint_names_extend (save_model : string) (losses : list R)
  (valid_loss : R) :
  map (fun i =>
         (Z.of_nat i,
          String.append save_model
            (String.append "_loss_"
               (String.append
                  (format_vloss (nth i (losses ++ [valid_loss]) 0))
                  ".chkpt"))))
      (seq 0 (length losses))
  = map (fun i =>
           (Z.of_nat i,
            String.append save_model
              (String.append "_loss_"
                 (String.append (format_vloss (nth i losses 0)) ".chkpt"))))
        (seq 0 (length losses)).
Proof.
  apply map_ext_in. intros i Hi. apply in_seq in Hi.
  rewrite app_nth1 by lia. reflexivity.
Qed.

(** X18: The save mode 'all': every epoch that runs to its end saves one
    checkpoint, to a file named after the model name and the validation
    loss of the epoch; the epoch that stops the run early saves none. *)
Theorem train_saves_every_epoch :
  forall (model : model_t) (training_data validation_data : nat -> list batch_t)
         (optimizer : optimizer_t) (device : device) (opt : options)
         (save_model : string),
    opt_save_model opt = Some save_model ->
    save_model <> EmptyString ->
    opt_save_mode opt = "all"%string ->
    match train model training_data validation_data optimizer device opt with
    | Next v => every_checkpoint_kept save_model v (length (tv_valid_losses v))
    | Break v =>
        every_checkpoint_kept save_model v (length (tv_valid_losses v) - 1)
    | Raised _ _ => True
    end.
Proof.
  intros model td vd optimizer device opt save_model Hsave Hne Hmode.
  set (inv := fun v : train_vars =>
                every_checkpoint_kept save_model v (length (tv_valid_losses v))).
  set (goal := fun v : train_vars =>
                 every_checkpoint_kept save_model v
                   (length (tv_valid_losses v) - 1)).
  assert (Hstep : forall ltf lvf v0 v1,
    inv v0 ->
    train_epoch_i td vd device opt ltf lvf v0 (length (tv_valid_losses v0))
    = Next v1 ->
    inv v1).
  { intros ltf lvf v0 v1 Hinv Hb.
    destruct (train_epoch_i_next _ _ _ _ _ _ _ _ _ Hb)
      as (tl & st & vl & est & saved & _ & _ & Hsaved & Hl & Hev & _).
    unfold save_checkpoint in Hsaved. rewrite Hsave, Hmode in Hsaved.
    destruct (String.eqb_spec save_model EmptyString) as [H | _];
      [contradiction |].
    cbn [negb String.eqb Ascii.eqb Bool.eqb] in Hsaved.
    injection Hsaved as <-.
    unfold inv, every_checkpoint_kept in *.
    rewrite Hev, Hl, length_app. cbn [length].
    replace (length (tv_valid_losses v0) + 1)%nat
      with (S (length (tv_valid_losses v0))) by lia.
    rewrite seq_S, map_app, checkpoint_names_extend.
    rewrite !saved_files_app, saved_files_log, Hinv, app_nil_r.
    cbn [saved_files flat_map app map Nat.add ck_epoch].
    rewrite nth_middle. reflexivity. }
  assert (Hstop : forall ltf lvf v0 v1,
    inv v0 ->
    train_epoch_i td vd device opt ltf lvf v0 (length (tv_valid_losses v0))
    = Break v1 ->
    goal v1).
  { intros ltf lvf v0 v1 Hinv Hb.
    destruct (train_epoch_i_break _ _ _ _ _ _ _ _ _ Hb)
      as (tl & vl & sw & _ & _ & _ & _ & Hl & _ & _ & Hev).
    unfold goal, inv, every_checkpoint_kept in *.
    rewrite Hev, Hl, length_app. cbn [length].
    replace (length (tv_valid_losses v0) + 1 - 1)%nat
      with (length (tv_valid_losses v0)) by lia.
    rewrite checkpoint_names_extend, saved_files_app, Hinv.
    apply app_nil_r. }
  unfold train.
  destruct (match opt_log opt with Some _ => _ | None => _ end)
    as [[ltf lvf] events] eqn:Hlog.
  assert (Hevents : saved_files events = []).
  { destruct (opt_log opt) as [log |];
      [destruct (negb (String.eqb log EmptyString)) |];
      injection Hlog as <- <- <-; reflexivity. }
  pose proof (train_epochs_invariant td vd device opt ltf lvf inv goal
                (Hstep ltf lvf) (Hstop ltf lvf) (Z.to_nat (opt_epoch opt))
                (mkTrainVars model optimizer [] (-1)%Z 10000 events))
    as Hinv.
  cbn [tv_valid_losses length] in Hinv.
  assert (Hinit : inv (mkTrainVars model optimizer [] (-1)%Z 10000 events)).
  { unfold inv, every_checkpoint_kept. cbn [tv_events tv_valid_losses length seq map].
    exact Hevents. }
  specialize (Hinv Hinit).
  destruct (train_epochs _ _ _ _ _ _ _ _); try exact I.
  - destruct Hinv as [Hv _]. exact Hv.
  - exact Hinv.
Qed.

Lemma log_epoch_quiet (epoch_i : Z) (train_loss valid_loss : R) :
  log_epoch None None epoch_i train_loss valid_loss = [].
Proof. reflexivity. Qed.

(** X19: A run that is given neither a log name nor a model name touches no
    file: it writes no header, saves no checkpoint and appends no log
    line, whatever the save mode. *)
Theorem train_without_files :
  forall (model : model_t) (training_data validation_data : nat -> list batch_t)
         (optimizer : optimizer_t) (device : device) (opt : options),
    str_truthy (opt_log opt) = false ->
    str_truthy (opt_save_model opt) = false ->
    match train model training_data validation_data optimizer device opt with
    | Next v | Break v =>
        forallb (fun ev => negb (writes_file ev)) (tv_events v) = true
    | Raised _ _ => True
    end.
Proof.
  intros model td vd optimizer device opt Hlog Hsave.
  set (inv := fun v : train_vars =>
                forallb (fun ev => negb (writes_file ev)) (tv_events v) = true).
  assert (Hstep : forall v0 v1,
    inv v0 ->
    train_epoch_i td vd device opt None None v0 (length (tv_valid_losses v0))
    = Next v1 ->
    inv v1).
  { intros v0 v1 Hinv Hb.
    destruct (train_epoch_i_next _ _ _ _ _ _ _ _ _ Hb)
      as (tl & st & vl & est & saved & _ & _ & Hsaved & _ & Hev & _).
    assert (Hnone : saved = []).
    { unfold save_checkpoint in Hsaved. unfold str_truthy in Hsave.
      destruct (opt_save_model opt) as [name |]; [| congruence].
      rewrite Hsave in Hsaved. congruence. }
    unfold inv in *. rewrite Hev, Hnone, log_epoch_quiet, !forallb_app, Hinv.
    reflexivity. }
  assert (Hstop : forall v0 v1,
    inv v0 ->
    train_epoch_i td vd device opt None None v0 (length (tv_valid_losses v0))
    = Break v1 ->
    inv v1).
  { intros v0 v1 Hinv Hb.
    destruct (train_epoch_i_break _ _ _ _ _ _ _ _ _ Hb)
      as (tl & vl & sw & _ & _ & _ & _ & _ & _ & _ & Hev).
    unfold inv in *. rewrite Hev, forallb_app, Hinv. reflexivity. }
  pose proof (train_epochs_invariant td vd device opt None None inv inv
                Hstep Hstop (Z.to_nat (opt_epoch opt))
                (mkTrainVars model optimizer [] (-1)%Z 10000 []))
    as Hinv.
  cbn [tv_valid_losses length] in Hinv.
  unfold train. unfold str_truthy in Hlog.
  specialize (Hinv eq_refl).
  destruct (opt_log opt) as [log |]; [rewrite Hlog |];
    cbv beta iota zeta;
    (destruct (train_epochs _ _ _ _ _ _ _ _); try exact I;
     [destruct Hinv as [Hv _]; exact Hv | exact Hinv]).
Qed.

(** ** The epoch loops on an empty data iterable *)

(** C10: on an empty data iterable, the loops of [train_epoch] and
    [eval_epoch] end at once with [n_batches] equal to 0, and both
    functions then raise [ZeroDivisionError] at [total_loss / n_batches]
    instead of returning an epoch loss. *)
Theorem epoch_empty_data_zero_division :
  forall (model : model_t) (optimizer : optimizer_t) (device : device),
    (exists st,
        train_loop device (mkTrainState (model_train model) optimizer 0 0 [] [])
          0 [] = Ok st
        /\ tr_n_batches st = 0)
    /\ train_epoch model [] optimizer device = Raise ZeroDivisionError
    /\ (exists st,
           eval_loop (model_eval model) device (mkEvalState 0 0) [] = Ok st
           /\ ev_n_batches st = 0)
    /\ eval_epoch model [] device = Raise ZeroDivisionError.
Proof.
  intros model optimizer device.
  assert (Hdiv : forall x, py_div x 0 = Raise ZeroDivisionError).
  { intros x. unfold py_div. destruct (Req_EM_T 0 0) as [_ | Hne].
    - reflexivity.
    - exfalso. apply Hne. reflexivity. }
  repeat split.
  - eexists. split; reflexivity.
  - unfold train_epoch. simpl. rewrite Hdiv. reflexivity.
  - eexists. split; reflexivity.
  - unfold eval_epoch. simpl. rewrite Hdiv. reflexivity.
Qed.

End Train.

(** ** The device argument of [cal_loss] *)

(** C9: [cal_loss] does not depend on its device argument: it rebinds the
    device to the CPU and moves both tensors there, so two calls with any
    two devices return the same result, whether a CUDA device is present
    or not; the CUDA branch of [unpad_angle_vectors], which needs one, is
    never taken. *)
Theorem cal_loss_device_noninterference :
  forall (coords : Type) (angles2coords : tensor R -> device -> coords)
         (drmsd : coords -> coords -> R) (pred gold : tensor R),
    (forall (available1 available2 : bool) (device1 device2 : device),
        cal_loss available1 coords angles2coords drmsd pred gold device1
        = cal_loss available2 coords angles2coords drmsd pred gold device2)
    /\ (forall (available : bool) (device : device),
          cal_loss available coords angles2coords drmsd pred gold device
          = cal_loss available coords angles2coords drmsd
              (mkTensor cpu (shape pred) (data pred))
              (mkTensor cpu (shape gold) (data gold)) cpu)
    /\ unpad_angle_vectors false pred gold cuda = Raise CudaUnavailable.
Proof.
  intros coords angles2coords drmsd pred gold.
  split; [| split]; intros; reflexivity.
Qed.

(** ** The statements on concrete tensors *)

Example broadcast_batch_of_one :
  broadcast_shapes [1; 1; 11]%nat [2; 1; 11]%nat = Some [2; 1; 11]%nat.
Proof. reflexivity. Qed.

Example broadcast_missing_dimension :
  broadcast_shapes [11]%nat [2; 3; 11]%nat = Some [2; 3; 11]%nat.
Proof. reflexivity. Qed.

Example broadcast_refused :
  broadcast_shapes [1; 2; 11]%nat [1; 3; 11]%nat = None.
Proof. reflexivity. Qed.

Example expand_rows :
  expand [1; 2]%nat [3; 2]%nat [7; 8]%nat = [7; 8; 7; 8; 7; 8]%nat.
Proof. reflexivity. Qed.

Example expand_columns :
  expand [2; 1]%nat [2; 3]%nat [7; 8]%nat = [7; 7; 7; 8; 8; 8]%nat.
Proof. reflexivity. Qed.

Example view_of_two_examples :
  view_pairs (mkTensor cpu [2; 3; 22]%nat (repeat 0%nat 132))
  = Ok (mkTensor cpu [2; 3; 11; 2]%nat (repeat 0%nat 132)).
Proof. reflexivity. Qed.

Example view_of_empty_batch :
  view_pairs (mkTensor cpu [0; 3; 22]%nat (@nil nat)) = Raise RuntimeError.
Proof. reflexivity. Qed.

Example index_last_pairs :
  index_last 1 (mkTensor cpu [1; 1; 3; 2]%nat [1; 2; 3; 4; 5; 6]%nat)
  = Ok (mkTensor cpu [1; 1; 3]%nat [2; 4; 6]%nat).
Proof. reflexivity. Qed.

(** C7 fails as stated: a tensor shaped (22), that is (..., 22) with no
    leading dimension, is refused by the [view] of
    [inverse_trig_transform]. *)
Lemma codec_rejects_flat_tensor :
  wf flat22
  /\ shape flat22 = [] ++ [22%nat]
  /\ inverse_trig_transform flat22 = Raise RuntimeError.
Proof. repeat split. Qed.

Lemma angles11_range : Forall (fun a => - PI < a <= PI) angles11.
Proof.
  pose proof PI_RGT_0 as Hpi. unfold angles11.
  repeat (constructor; [lra |]). constructor.
Qed.

Lemma encoded11_wf : wf encoded11.
Proof. reflexivity. Qed.

Lemma codec_round_trip_witness :
  inverse_trig_transform encoded11 = Ok (mkTensor cpu [1; 1; 11]%nat angles11).
Proof.
  apply (codec_round_trip cpu 1 1 angles11).
  - discriminate.
  - reflexivity.
  - exact angles11_range.
Defined.

Lemma codec_total_bounded_witness :
  exists out,
    inverse_trig_transform encoded11 = Ok out
    /\ shape out = [1; 1; 11]%nat.
Proof.
  destruct (codec_total_bounded encoded11 1 [1%nat] encoded11_wf eq_refl)
    as (out & Hout & Hshape & _).
  - discriminate.
  - exists out. split; [exact Hout | exact Hshape].
Defined.

(** C1 fails as stated: the residue of [gold_zero_angles] is not the
    all-zero padding pattern, so a per-residue validity mask is true on
    it, yet the mask of the code is false at its second value and the
    value of the prediction there is dropped. *)
Lemma mask_is_not_per_residue :
  ~ padded_at 22 (data gold_zero_angles) 0
  /\ nth 1 (residue_mask 22 (data gold_zero_angles)) false = true
  /\ nth 1 (data (tne0 gold_zero_angles)) true = false
  /\ exists pred_unpadded gold_unpadded,
       unpad_angle_vectors false pred_fives gold_zero_angles cpu
       = Ok (pred_unpadded, gold_unpadded)
       /\ nth 1 (data pred_fives) 0 = 5
       /\ nth 1 (data pred_unpadded) 5 = 0.
Proof.
  split; [| split; [| split]].
  - intros H. assert (H0 : in_residue 22 0 0) by (unfold in_residue; lia).
    apply H in H0. simpl in H0. lra.
  - unfold residue_mask. cbn -[ne0].
    rewrite (ne0_nonzero 1) by lra. reflexivity.
  - cbn -[ne0]. apply ne0_0.
  - rewrite unpad_same; try reflexivity; [| discriminate].
    eexists. eexists. split; [reflexivity |]. split; [reflexivity |].
    cbn -[mask01]. rewrite mask01_0. ring.
Qed.

Lemma pred_b_agrees_off_padding :
  agree_off_padding 22 (data gold_padded) (data pred_a) (data pred_b).
Proof.
  intros [| [| r]].
  - right. intros j [_ Hj].
    do 22 (destruct j as [| j]; [reflexivity |]). exfalso. lia.
  - left. intros j [Hj1 Hj2].
    do 44 (destruct j as [| j]; [first [reflexivity | exfalso; lia] |]).
    exfalso. lia.
  - left. intros j [Hj _]. apply nth_overflow. simpl. lia.
Qed.

Lemma validity_mask_elementwise_witness :
  mse_loss false pred_b gold_padded = mse_loss false pred_a gold_padded
  /\ cal_loss false (list R) sample_angles2coords sample_drmsd
       pred_b gold_padded cuda
     = cal_loss false (list R) sample_angles2coords sample_drmsd
         pred_a gold_padded cpu.
Proof.
  destruct (validity_mask_elementwise false (list R) sample_angles2coords
              sample_drmsd pred_a gold_padded eq_refl eq_refl eq_refl)
    as (_ & _ & _ & H).
  destruct (H pred_b eq_refl eq_refl pred_b_agrees_off_padding) as [Hmse Hcal].
  split; [exact Hmse |].
  apply (Hcal 1%nat 2%nat); [reflexivity | discriminate].
Defined.

Lemma unpad_idempotent_witness :
  ('(pred1, gold1) <- unpad_angle_vectors false pred_fives gold_zero_angles cpu ;;
   unpad_angle_vectors false pred1 gold1 cpu)
  = unpad_angle_vectors false pred_fives gold_zero_angles cpu.
Proof.
  exact (unpad_idempotent false pred_fives gold_zero_angles cpu eq_refl eq_refl).
Defined.

(** C2 fails as stated: on [pred_zero] and [gold_two], [mse_loss] returns
    2/11, the error of the raw values, whereas decoding first gives angles
    that are all zero and the loss 0. *)
Lemma mse_loss_differs_from_decoded :
  mse_loss false pred_zero gold_two = Ok (Num (2 / 11))
  /\ mse_loss_decoded false pred_zero gold_two = Ok (Num 0)
  /\ mse_loss false pred_zero gold_two
     <> mse_loss_decoded false pred_zero gold_two.
Proof.
  assert (H1 : mse_loss false pred_zero gold_two = Ok (Num (2 / 11))).
  { rewrite mse_loss_ok by reflexivity.
    cbn -[mask01 Rmult Rminus Rplus Rdiv INR].
    rewrite mask01_0, (mask01_nonzero 2) by lra.
    do 2 f_equal. simpl. field. }
  assert (H2 : mse_loss_decoded false pred_zero gold_two = Ok (Num 0)).
  { rewrite (mse_loss_decoded_ok false _ _ 1 1);
      try reflexivity; [| discriminate].
    rewrite masked_angles_self. unfold masked_angles.
    cbn -[mask01 atan2 Rmult Rminus Rplus Rdiv INR].
    rewrite atan2_0_0, (atan2_0_pos 2) by lra. rewrite mask01_0.
    do 2 f_equal. simpl. field. }
  split; [exact H1 |]. split; [exact H2 |].
  rewrite H1, H2. intros [= H]. lra.
Qed.

Lemma mse_loss_masks_without_decoding_witness :
  exists v, mse_loss false pred_fives gold_zero_angles = Ok (Num v).
Proof.
  destruct (mse_loss_masks_without_decoding false pred_fives gold_zero_angles
              eq_refl eq_refl eq_refl) as [Hlen Hmse].
  rewrite Hmse.
  destruct (zip_with _ _ _) as [| x sq]; [discriminate Hlen |].
  eexists. reflexivity.
Defined.

Lemma batch4_losses :
  example_losses (list R) sample_angles2coords sample_drmsd 4 1
    (data batch4) (data batch4)
  = [0.1; 0.2; 0.3; 0.4].
Proof.
  unfold example_losses. rewrite masked_angles_self.
  cbn -[atan2 Rplus Rdiv Rmult PI].
  rewrite atan2_1_0, atan2_0_0.
  unfold sample_drmsd, sample_angles2coords.
  cbn -[Rplus Rdiv Rmult PI].
  pose proof PI_neq0 as Hpi.
  change 0.1 with (1 / 10). change 0.2 with (2 / 10).
  change 0.3 with (3 / 10). change 0.4 with (4 / 10).
  repeat match goal with
         | |- _ :: _ = _ :: _ => f_equal
         end; field; exact Hpi.
Qed.

Lemma cal_loss_batch_mean_witness :
  cal_loss false (list R) sample_angles2coords sample_drmsd batch4 batch4 cuda
  = Ok 0.25.
Proof.
  destruct (cal_loss_batch_mean false (list R) sample_angles2coords
              sample_drmsd batch4 batch4 cuda 4 1 eq_refl eq_refl eq_refl
              eq_refl)
    as (_ & _ & _ & H).
  - discriminate.
  - apply H. exact batch4_losses.
Defined.



(** ** The further properties on concrete inputs *)

Lemma sample_distance_self (x : list R) : sample_distance x x = 0.
Proof.
  unfold sample_distance. rewrite Rminus_diag, Rabs_R0.
  apply Rmin_right. lra.
Qed.

Lemma sample_distance_bounds (a b : list R) :
  0 <= sample_distance a b <= 1.
Proof.
  unfold sample_distance. split.
  - apply Rmin_glb; [lra | apply Rabs_pos].
  - apply Rmin_l.
Qed.

Lemma sample_cal_loss (gold : tensor R) (device : device) (B L : nat) :
  wf gold -> shape gold = [B; L; 22]%nat -> B <> 0%nat ->
  cal_loss false (list R) sample_angles2coords sample_distance gold gold device
  = Ok 0.
Proof.
  intros Hg Hs HB.
  rewrite (cal_loss_ok _ _ _ _ _ _ _ B L) by assumption.
  rewrite (example_losses_self _ _ _ B L _ sample_distance_self).
  unfold Rdiv. rewrite Rmult_0_l. reflexivity.
Qed.

Lemma gold_zero_angles_wf : wf gold_zero_angles.
Proof. reflexivity. Qed.

Lemma cal_loss_scale_invariant_witness :
  inverse_trig_transform (tscale 2 pred_fives)
  = inverse_trig_transform pred_fives
  /\ cal_loss false (list R) sample_angles2coords sample_drmsd
       (tscale 2 pred_fives) (tscale 3 gold_zero_angles) cpu
     = cal_loss false (list R) sample_angles2coords sample_drmsd
         pred_fives gold_zero_angles cpu.
Proof.
  apply (cal_loss_scale_invariant false (list R) sample_angles2coords
           sample_drmsd 2 3 pred_fives gold_zero_angles cpu); lra.
Defined.

Lemma gold_zero_angles_unit : unit_pairs (data gold_zero_angles).
Proof. cbn. repeat split; ring. Qed.

Lemma codec_encode_after_decode_witness :
  exists out,
    inverse_trig_transform gold_zero_angles = Ok out
    /\ shape out = [1; 1; 11]%nat
    /\ trig_encode (data out) = data gold_zero_angles.
Proof.
  apply (codec_encode_after_decode gold_zero_angles 1 1).
  - exact gold_zero_angles_wf.
  - reflexivity.
  - discriminate.
  - exact gold_zero_angles_unit.
Defined.

Lemma unpad_pred_fives :
  unpad_angle_vectors false pred_fives gold_zero_angles cpu
  = Ok (mkTensor cpu [1; 1; 22]%nat
          (zip_with Rmult (data pred_fives)
             (map mask01 (data gold_zero_angles))),
        mkTensor cpu [1; 1; 22]%nat
          (zip_with Rmult (data gold_zero_angles)
             (map mask01 (data gold_zero_angles)))).
Proof. apply unpad_same; try reflexivity. discriminate. Qed.

Lemma unpad_returns_reference_witness :
  exists pred_unpadded gold_unpadded,
    unpad_angle_vectors false pred_fives gold_zero_angles cpu
    = Ok (pred_unpadded, gold_unpadded)
    /\ gold_unpadded = gold_zero_angles
    /\ shape pred_unpadded = [1; 1; 22]%nat.
Proof.
  eexists. eexists. split; [exact unpad_pred_fives |].
  destruct (unpad_returns_reference false pred_fives gold_zero_angles _ _ cpu
              eq_refl eq_refl unpad_pred_fives)
    as (Hgold & _ & _ & _).
  split; [exact Hgold | reflexivity].
Defined.

Lemma unpad_devices_witness :
  (exists r, unpad_angle_vectors false pred_fives gold_zero_angles cpu = Ok r)
  /\ ~ (exists r,
          unpad_angle_vectors false pred_fives gold_zero_angles cuda = Ok r).
Proof.
  assert (Hshape : shape gold_zero_angles <> []) by discriminate.
  destruct (unpad_devices false pred_fives gold_zero_angles Hshape)
    as [Hcpu Hcuda].
  split.
  - apply Hcpu. repeat split. discriminate.
  - intros H. apply Hcuda in H. destruct H as [H _]. discriminate H.
Defined.

Lemma mse_loss_nonnegative_witness :
  exists v,
    mse_loss false pred_fives gold_zero_angles = Ok (Num v) /\ 0 <= v.
Proof.
  assert (Hdata : data gold_zero_angles <> []) by discriminate.
  destruct (mse_loss_nonnegative false pred_fives gold_zero_angles
              eq_refl eq_refl eq_refl Hdata)
    as (v & Hv & Hpos & _).
  exists v. split; [exact Hv | exact Hpos].
Defined.

Lemma cal_loss_between_scores_witness :
  cal_loss false (list R) sample_angles2coords sample_distance
    gold_zero_angles gold_zero_angles cpu = Ok 0
  /\ 0 <= 0 <= 1.
Proof.
  assert (H : cal_loss false (list R) sample_angles2coords sample_distance
                gold_zero_angles gold_zero_angles cpu = Ok 0).
  { apply (sample_cal_loss _ _ 1 1); [reflexivity | reflexivity | discriminate]. }
  split; [exact H |].
  exact (cal_loss_between_scores false (list R) sample_angles2coords
           sample_distance 0 1 gold_zero_angles gold_zero_angles cpu 0
           sample_distance_bounds H).
Defined.

Lemma cal_loss_perfect_prediction_witness :
  cal_loss false (list R) sample_angles2coords sample_distance batch4 batch4
    cuda
  = Ok 0.
Proof.
  apply (cal_loss_perfect_prediction false (list R) sample_angles2coords
           sample_distance batch4 cuda 4 1).
  - exact sample_distance_self.
  - reflexivity.
  - reflexivity.
  - discriminate.
Defined.

Lemma cal_loss_scores_first_example_only_witness :
  cal_loss false (list R) sample_angles2coords sample_drmsd
    batch4 gold_zero_angles cpu
  = cal_loss false (list R) sample_angles2coords sample_drmsd
      (mkTensor cpu [1; 1; 22]%nat (firstn 22 (data batch4)))
      gold_zero_angles cpu.
Proof.
  apply (cal_loss_scores_first_example_only false (list R)
           sample_angles2coords sample_drmsd batch4 gold_zero_angles cpu 4 1).
  - reflexivity.
  - reflexivity.
  - reflexivity.
  - reflexivity.
  - discriminate.
Defined.

Lemma sample_loss_zero (device : device) :
  cal_loss false (list R) sample_angles2coords sample_distance
    gold_zero_angles gold_zero_angles device = Ok 0.
Proof.
  apply (sample_cal_loss _ _ 1 1); [reflexivity | reflexivity | discriminate].
Qed.

Lemma sample_loss4_zero (device : device) :
  cal_loss false (list R) sample_angles2coords sample_distance
    batch4 batch4 device = Ok 0.
Proof.
  apply (sample_cal_loss _ _ 4 1); [reflexivity | reflexivity | discriminate].
Qed.

Lemma to_cpu_self {A : Type} (available : bool) (t : tensor A) :
  dev t = cpu -> to available cpu t = Ok t.
Proof. destruct t as [d s l]. cbn. intros ->. reflexivity. Qed.

Lemma sample_train_loop (n : nat) :
  forall (st : train_state nat nat) (batch_num : nat),
  exists st',
    train_loop false (list R) sample_angles2coords sample_distance nat nat
      sample_model_call sample_optimize cpu st batch_num
      (repeat sample_batch n)
    = Ok st'
    /\ tr_n_batches nat nat st' = tr_n_batches nat nat st + INR n.
Proof.
  induction n as [| n IH]; intros st batch_num.
  - exists st. split; [reflexivity | simpl; ring].
  - cbn [repeat train_loop]. unfold train_batch at 1, sample_batch at 1.
    rewrite !to_cpu_self by reflexivity.
    cbn [bind sample_model_call].
    change (slice_all gold_zero_angles) with (Ok gold_zero_angles).
    cbn [bind]. rewrite (sample_loss_zero cpu). cbn [bind sample_optimize].
    match goal with
    | |- context [train_loop _ _ _ _ _ _ _ _ _ ?s ?k _] =>
        destruct (IH s k) as (st' & Hloop & Hn)
    end.
    exists st'. split; [exact Hloop |].
    rewrite Hn. cbn [tr_n_batches]. rewrite S_INR. ring.
Qed.

Lemma sample_train_epoch (model optimizer n : nat) :
  exists r st,
    train_epoch false (list R) sample_angles2coords sample_distance nat nat
      (fun m => m) sample_model_call sample_optimize model
      (repeat sample_batch (S n)) optimizer cpu
    = Ok (r, st).
Proof.
  unfold train_epoch.
  match goal with
  | |- context [train_loop _ _ _ _ _ _ _ _ _ ?s ?k _] =>
      destruct (sample_train_loop (S n) s k) as (st & Hloop & Hn)
  end.
  rewrite Hloop. cbn [bind]. unfold py_div.
  destruct (Req_EM_T (tr_n_batches nat nat st) 0) as [H0 | _].
  - exfalso. rewrite Hn in H0. cbn [tr_n_batches] in H0.
    pose proof (pos_INR n). rewrite S_INR in H0. lra.
  - eexists. eexists. reflexivity.
Qed.

Lemma train_epoch_mean_of_batches_witness :
  exists r st,
    train_epoch false (list R) sample_angles2coords sample_distance nat nat
      (fun m => m) sample_model_call sample_optimize 0%nat
      (repeat sample_batch 6) 0%nat cpu
    = Ok (r, st)
    /\ length (tr_training_losses nat nat st) = 6%nat
    /\ r = Rsum (tr_training_losses nat nat st) / 6.
Proof.
  destruct (sample_train_epoch 0 0 5) as (r & st & Hrun).
  exists r, st. split; [exact Hrun |].
  destruct (train_epoch_mean_of_batches false (list R) sample_angles2coords
              sample_distance nat nat (fun m => m) sample_model_call
              sample_optimize 0%nat (repeat sample_batch 6) 0%nat cpu r st
              Hrun)
    as (_ & Hlen & _ & _ & Hr).
  split; [exact Hlen |].
  rewrite Hr. f_equal. simpl. lra.
Defined.

Lemma train_epoch_prints_every_five_witness :
  exists r st,
    train_epoch false (list R) sample_angles2coords sample_distance nat nat
      (fun m => m) sample_model_call sample_optimize 0%nat
      (repeat sample_batch 11) 0%nat cpu
    = Ok (r, st)
    /\ length (tr_printed nat nat st) = 2%nat.
Proof.
  destruct (sample_train_epoch 0 0 10) as (r & st & Hrun).
  exists r, st. split; [exact Hrun |].
  exact (train_epoch_prints_every_five false (list R) sample_angles2coords
           sample_distance nat nat (fun m => m) sample_model_call
           sample_optimize 0%nat (repeat sample_batch 11) 0%nat cpu r st
           Hrun).
Defined.

Lemma sample_eval_batch (st : eval_state) (model : nat) :
  eval_batch false (list R) sample_angles2coords sample_distance nat
    sample_model_call model cpu st sample_batch
  = Ok (mkEvalState (ev_total_loss st + 0) (ev_n_batches st + 1)).
Proof.
  unfold eval_batch, sample_batch.
  rewrite !to_cpu_self by reflexivity.
  cbn [bind sample_model_call].
  change (slice_all gold_zero_angles) with (Ok gold_zero_angles).
  cbn [bind]. rewrite (sample_loss_zero cpu). reflexivity.
Qed.

Lemma sample_eval_batch4 (st : eval_state) (model : nat) :
  eval_batch false (list R) sample_angles2coords sample_distance nat
    sample_model_call model cpu st sample_batch4
  = Ok (mkEvalState (ev_total_loss st + 0) (ev_n_batches st + 1)).
Proof.
  unfold eval_batch, sample_batch4.
  rewrite !to_cpu_self by reflexivity.
  cbn [bind sample_model_call].
  change (slice_all batch4) with (Ok batch4).
  cbn [bind]. rewrite (sample_loss4_zero cpu). reflexivity.
Qed.

Lemma sample_eval_epoch (model : nat) :
  eval_epoch false (list R) sample_angles2coords sample_distance nat
    (fun m => m) sample_model_call model [sample_batch; sample_batch4] cpu
  = Ok ((0 + 0 + 0) / (0 + 1 + 1), mkEvalState (0 + 0 + 0) (0 + 1 + 1)).
Proof.
  unfold eval_epoch. cbn [eval_loop].
  rewrite sample_eval_batch. cbn [bind ev_total_loss ev_n_batches].
  rewrite sample_eval_batch4. cbn [bind ev_total_loss ev_n_batches].
  unfold py_div. destruct (Req_EM_T (0 + 1 + 1) 0) as [H | _]; [lra |].
  reflexivity.
Qed.

Lemma eval_epoch_mean_of_batches_witness :
  exists r st,
    eval_epoch false (list R) sample_angles2coords sample_distance nat
      (fun m => m) sample_model_call 0%nat [sample_batch; sample_batch4] cpu
    = Ok (r, st)
    /\ ev_n_batches st = 2.
Proof.
  eexists. eexists. split; [exact (sample_eval_epoch 0) |].
  destruct (eval_epoch_mean_of_batches false (list R) sample_angles2coords
              sample_distance nat (fun m => m) sample_model_call 0%nat
              [sample_batch; sample_batch4] cpu _ _ (sample_eval_epoch 0))
    as (_ & losses & _ & _ & Hn & _).
  rewrite Hn. simpl. lra.
Defined.

Lemma eval_epoch_order_independent_witness :
  eval_epoch false (list R) sample_angles2coords sample_distance nat
    (fun m => m) sample_model_call 0%nat [sample_batch4; sample_batch] cpu
  = eval_epoch false (list R) sample_angles2coords sample_distance nat
      (fun m => m) sample_model_call 0%nat [sample_batch; sample_batch4] cpu.
Proof.
  rewrite (sample_eval_epoch 0).
  apply (eval_epoch_order_independent false (list R) sample_angles2coords
           sample_distance nat (fun m => m) sample_model_call 0%nat
           [sample_batch; sample_batch4] [sample_batch4; sample_batch] cpu).
  - apply perm_swap.
  - exact (sample_eval_epoch 0).
Defined.

Lemma sample_train_epoch1 (model optimizer : nat) :
  exists r st,
    train_epoch false (list R) sample_angles2coords sample_distance nat nat
      (fun m => m) sample_model_call sample_optimize model
      [sample_batch] optimizer cpu
    = Ok (r, st).
Proof. exact (sample_train_epoch model optimizer 0). Qed.

Lemma sample_eval_epoch1 (model : nat) :
  eval_epoch false (list R) sample_angles2coords sample_distance nat
    (fun m => m) sample_model_call model [sample_batch] cpu
  = Ok (0, mkEvalState (0 + 0) (0 + 1)).
Proof.
  unfold eval_epoch. cbn [eval_loop].
  rewrite sample_eval_batch. cbn [bind ev_total_loss ev_n_batches].
  unfold py_div. destruct (Req_EM_T (0 + 1) 0) as [H | _]; [lra |].
  replace ((0 + 0) / (0 + 1)) with 0 by field. reflexivity.
Qed.

Lemma Rltb_false (x y : R) : ~ x < y -> Rltb x y = false.
Proof.
  intros H. unfold Rltb.
  destruct (Rlt_dec x y); [contradiction | reflexivity].
Qed.

Ltac sample_epoch opt :=
  unfold train_epoch_i at 1;
  cbn [tv_model tv_optimizer tv_events tv_valid_losses
       tv_best_valid_loss_so_far tv_epoch_last_improved];
  unfold sample_loader;
  match goal with
  | |- context [train_epoch _ _ _ _ _ _ _ _ _ ?m _ ?o _] =>
      let r := fresh "r" in
      let st := fresh "st" in
      let H := fresh "H" in
      destruct (sample_train_epoch1 m o) as (r & st & H); rewrite H
  end;
  rewrite sample_eval_epoch1;
  let step_when := eval cbv in (opt_step_when opt) in
  change (opt_step_when opt) with step_when;
  cbn [int_truthy Z.eqb negb andb].

Ltac sample_save opt :=
  unfold save_checkpoint at 1;
  let save_model := eval cbv in (opt_save_model opt) in
  change (opt_save_model opt) with save_model;
  let save_mode := eval cbv in (opt_save_mode opt) in
  change (opt_save_mode opt) with save_mode;
  cbn [String.eqb negb Ascii.eqb Bool.eqb app py_min fold_left].

Ltac sample_patience :=
  match goal with
  | |- context [Z.gtb ?a ?b] =>
      let c := eval vm_compute in (Z.gtb a b) in
      change (Z.gtb a b) with c
  end.

Lemma sample_run_stops :
  exists v,
    train false (list R) sample_angles2coords sample_distance nat nat
      (fun m => m) (fun m => m) sample_model_call sample_optimize nat
      (fun m => m) sample_format_vloss 0%nat sample_loader sample_loader
      0%nat cpu sample_options
    = Break nat nat nat v
    /\ length (tv_valid_losses nat nat nat v) = 3%nat.
Proof.
  assert (Hlt : Rltb 0 10000 = true) by (apply Rltb_true; lra).
  assert (Hnlt : Rltb 0 0 = false) by (apply Rltb_false; lra).
  assert (Hle : Rleb 0 0 = true) by (apply Rleb_true; lra).
  assert (Hmin : Rmin 0 0 = 0) by (apply Rmin_left; lra).
  unfold train.
  change (opt_log sample_options) with (Some "run"%string).
  change (Z.to_nat (opt_epoch sample_options)) with 5%nat.
  cbn [String.eqb negb Ascii.eqb Bool.eqb seq train_epochs].
  sample_epoch sample_options. rewrite Hlt.
  sample_save sample_options. rewrite Hle.
  sample_epoch sample_options. rewrite Hnlt. sample_patience.
  sample_save sample_options. rewrite Hmin, Hle.
  sample_epoch sample_options. rewrite Hnlt. sample_patience.
  eexists. split; reflexivity.
Qed.

Lemma train_early_stopping_witness :
  exists v,
    train false (list R) sample_angles2coords sample_distance nat nat
      (fun m => m) (fun m => m) sample_model_call sample_optimize nat
      (fun m => m) sample_format_vloss 0%nat sample_loader sample_loader
      0%nat cpu sample_options
    = Break nat nat nat v
    /\ (Z.of_nat (length (tv_valid_losses nat nat nat v)) - 1
        - tv_epoch_last_improved nat nat nat v > 1)%Z
    /\ best_recorded nat nat nat v.
Proof.
  destruct sample_run_stops as (v & Hrun & _).
  exists v. split; [exact Hrun |].
  destruct (train_early_stopping false (list R) sample_angles2coords
              sample_distance nat nat (fun m => m) (fun m => m)
              sample_model_call sample_optimize nat (fun m => m)
              sample_format_vloss 0%nat sample_loader sample_loader 0%nat cpu
              sample_options v Hrun)
    as (step_when & Hsw & _ & Hgap & Hbest).
  injection Hsw as <-. split; [exact Hgap | exact Hbest].
Defined.

Lemma train_best_checkpoint_witness :
  exists v,
    train false (list R) sample_angles2coords sample_distance nat nat
      (fun m => m) (fun m => m) sample_model_call sample_optimize nat
      (fun m => m) sample_format_vloss 0%nat sample_loader sample_loader
      0%nat cpu sample_options
    = Break nat nat nat v
    /\ best_checkpoint_kept nat nat nat "model.chkpt" v 2.
Proof.
  destruct sample_run_stops as (v & Hrun & Hlen).
  exists v. split; [exact Hrun |].
  assert (Hname : "model"%string <> EmptyString) by discriminate.
  pose proof (train_best_checkpoint false (list R) sample_angles2coords
                sample_distance nat nat (fun m => m) (fun m => m)
                sample_model_call sample_optimize nat (fun m => m)
                sample_format_vloss 0%nat sample_loader sample_loader 0%nat
                cpu sample_options "model" eq_refl Hname eq_refl)
    as Hkept.
  rewrite Hrun, Hlen in Hkept. exact Hkept.
Defined.

Lemma train_log_lines_witness :
  exists v,
    train false (list R) sample_angles2coords sample_distance nat nat
      (fun m => m) (fun m => m) sample_model_call sample_optimize nat
      (fun m => m) sample_format_vloss 0%nat sample_loader sample_loader
      0%nat cpu sample_options
    = Break nat nat nat v
    /\ log_kept nat nat nat "run.train.log" "run.valid.log" v 2.
Proof.
  destruct sample_run_stops as (v & Hrun & Hlen).
  exists v. split; [exact Hrun |].
  assert (Hname : "run"%string <> EmptyString) by discriminate.
  pose proof (train_log_lines false (list R) sample_angles2coords
                sample_distance nat nat (fun m => m) (fun m => m)
                sample_model_call sample_optimize nat (fun m => m)
                sample_format_vloss 0%nat sample_loader sample_loader 0%nat
                cpu sample_options "run" eq_refl Hname)
    as Hkept.
  cbv zeta in Hkept. rewrite Hrun, Hlen in Hkept. exact Hkept.
Defined.

Lemma train_fails_without_batches_witness :
  exists events,
    train false (list R) sample_angles2coords sample_distance nat nat
      (fun m => m) (fun m => m) sample_model_call sample_optimize nat
      (fun m => m) sample_format_vloss 0%nat (fun _ => []) sample_loader
      0%nat cpu sample_options
    = Raised nat nat nat events (Epoch_error ZeroDivisionError)
    /\ forallb (fun ev => negb (writes_results nat ev)) events = true.
Proof.
  apply (train_fails_without_batches false (list R) sample_angles2coords
           sample_distance nat nat (fun m => m) (fun m => m)
           sample_model_call sample_optimize nat (fun m => m)
           sample_format_vloss 0%nat (fun _ => []) sample_loader 0%nat cpu
           sample_options).
  - reflexivity.
  - reflexivity.
Defined.

Lemma sample_run_all :
  exists v,
    train false (list R) sample_angles2coords sample_distance nat nat
      (fun m => m) (fun m => m) sample_model_call sample_optimize nat
      (fun m => m) sample_format_vloss 0%nat sample_loader sample_loader
      0%nat cpu sample_options_all
    = Next nat nat nat v
    /\ length (tv_valid_losses nat nat nat v) = 2%nat.
Proof.
  unfold train.
  change (opt_log sample_options_all) with (@None string).
  change (Z.to_nat (opt_epoch sample_options_all)) with 2%nat.
  cbn [seq train_epochs].
  sample_epoch sample_options_all. sample_save sample_options_all.
  sample_epoch sample_options_all. sample_save sample_options_all.
  eexists. split; reflexivity.
Qed.

Lemma train_saves_every_epoch_witness :
  exists v,
    train false (list R) sample_angles2coords sample_distance nat nat
      (fun m => m) (fun m => m) sample_model_call sample_optimize nat
      (fun m => m) sample_format_vloss 0%nat sample_loader sample_loader
      0%nat cpu sample_options_all
    = Next nat nat nat v
    /\ every_checkpoint_kept nat nat nat sample_format_vloss "model" v 2.
Proof.
  destruct sample_run_all as (v & Hrun & Hlen).
  exists v. split; [exact Hrun |].
  assert (Hname : "model"%string <> EmptyString) by discriminate.
  pose proof (train_saves_every_epoch false (list R) sample_angles2coords
                sample_distance nat nat (fun m => m) (fun m => m)
                sample_model_call sample_optimize nat (fun m => m)
                sample_format_vloss 0%nat sample_loader sample_loader 0%nat
                cpu sample_options_all "model" eq_refl Hname eq_refl)
    as Hkept.
  rewrite Hrun, Hlen in Hkept. exact Hkept.
Defined.

Lemma sample_run_quiet :
  exists v,
    train false (list R) sample_angles2coords sample_distance nat nat
      (fun m => m) (fun m => m) sample_model_call sample_optimize nat
      (fun m => m) sample_format_vloss 0%nat sample_loader sample_loader
      0%nat cpu sample_options_quiet
    = Next nat nat nat v
    /\ length (tv_valid_losses nat nat nat v) = 2%nat.
Proof.
  unfold train.
  change (opt_log sample_options_quiet) with (@None string).
  change (Z.to_nat (opt_epoch sample_options_quiet)) with 2%nat.
  cbn [seq train_epochs].
  sample_epoch sample_options_quiet. sample_save sample_options_quiet.
  sample_epoch sample_options_quiet. sample_save sample_options_quiet.
  eexists. split; reflexivity.
Qed.

Lemma train_without_files_witness :
  exists v,
    train false (list R) sample_angles2coords sample_distance nat nat
      (fun m => m) (fun m => m) sample_model_call sample_optimize nat
      (fun m => m) sample_format_vloss 0%nat sample_loader sample_loader
      0%nat cpu sample_options_quiet
    = Next nat nat nat v
    /\ forallb (fun ev => negb (writes_file nat ev))
         (tv_events nat nat nat v)
       = true.
Proof.
  destruct sample_run_quiet as (v & Hrun & _).
  exists v. split; [exact Hrun |].
  pose proof (train_without_files false (list R) sample_angles2coords
                sample_distance nat nat (fun m => m) (fun m => m)
                sample_model_call sample_optimize nat (fun m => m)
                sample_format_vloss 0%nat sample_loader sample_loader 0%nat
                cpu sample_options_quiet eq_refl eq_refl)
    as Hquiet.
  rewrite Hrun in Hquiet. exact Hquiet.
Defined.
